(** * qbVector: a shallow embedding of [qbVector.h] (qbLinAlg)

    The class template [qbVector<T>] is embedded as a record over an
    arbitrary element type [T] equipped with the operators the header
    applies to it.  C++ exceptions and undefined behaviour are explicit
    outcomes; [int] and [size_t] are integers with their conversions
    written out (LP64: 32-bit [int], 64-bit [size_t]). *)

From Stdlib Require Import ZArith Lia Floats.
From stdpp Require Import base list strings.

#[local] Open Scope Z_scope.

(** ** Outcomes of a call *)

(** The exceptions the header can raise: [std::invalid_argument] with its
    message (thrown by the class itself), [std::out_of_range] (thrown by
    [std::vector::at]) and [std::length_error] (thrown by the sized
    constructor of [std::vector]). *)
Inductive exn : Type :=
  | invalid_argument (what : string)
  | out_of_range
  | length_error.

(** A call returns a value, throws, or has undefined behaviour (an
    unchecked [std::vector::operator[]] outside the storage). *)
Inductive outcome (A : Type) : Type :=
  | Ok (a : A)
  | Throw (e : exn)
  | Undefined.

Arguments Ok {A} a.
Arguments Throw {A} e.
Arguments Undefined {A}.

(** Sequencing: an exception or undefined behaviour ends the call. *)
#[export] Instance outcome_ret : MRet outcome := @Ok.
#[export] Instance outcome_bind : MBind outcome := fun A B k m =>
  match m with
  | Ok a => k a
  | Throw e => Throw e
  | Undefined => Undefined
  end.

(** The error taxonomy of the specification, read off the message of the
    exception. *)
Inductive error_kind : Type :=
  | DimensionMismatch
  | InvalidDimension
  | IndexOutOfRange
  | OtherError.

Definition msg_add_sub : string := "Vector dimensions do not match.".
Definition msg_index : string := "Vector index out of range".
Definition msg_dot : string :=
  "Vector dimensions must match for the dot-product to be computed.".
Definition msg_cross_match : string :=
  "Vector dimensions must match for the cross-product to be computed.".
Definition msg_cross_three : string :=
  "The cross-product can only be computed for three-dimensional vectors.".

Definition kind_of (e : exn) : error_kind :=
  match e with
  | invalid_argument m =>
      if bool_decide (m = msg_index) then IndexOutOfRange
      else if bool_decide (m = msg_cross_three) then InvalidDimension
      else if bool_decide (m = msg_add_sub) || bool_decide (m = msg_dot)
              || bool_decide (m = msg_cross_match)
      then DimensionMismatch
      else OtherError
  | out_of_range => OtherError
  | length_error => OtherError
  end.

(** ** Machine integers *)

Definition INT_MAX : Z := 2 ^ 31 - 1.
Definition INT_MIN : Z := - 2 ^ 31.
Definition SIZE_MAX : Z := 2 ^ 64 - 1.

(** Conversion to [int] (two's complement, modular). *)
Definition to_int (z : Z) : Z := (z + 2 ^ 31) mod 2 ^ 32 - 2 ^ 31.

(** Conversion to [size_t] (modular). *)
Definition to_size_t (z : Z) : Z := z mod 2 ^ 64.

Definition int_range (z : Z) : Prop := INT_MIN <= z <= INT_MAX.

(** ** The element type *)

(** The operators [qbVector<T>] needs from [T]: [static_cast<T>(0.0)],
    [static_cast<T>(1.0)], the value-initialised [T()], binary [+], [-],
    [*], [/], unary [-] and [sqrt]. *)
Class Numeric (T : Type) : Type := {
  value_init : T;
  zero : T;
  one : T;
  add : T -> T -> T;
  sub : T -> T -> T;
  mul : T -> T -> T;
  div : T -> T -> T;
  neg : T -> T;
  sqrt : T -> T
}.

(** [double], the element type of the alias [vec3]. *)
#[export] Instance Numeric_double : Numeric float := {
  value_init := 0%float;
  zero := 0%float;
  one := 1%float;
  add := PrimFloat.add;
  sub := PrimFloat.sub;
  mul := PrimFloat.mul;
  div := PrimFloat.div;
  neg := PrimFloat.opp;
  sqrt := PrimFloat.sqrt
}.

(** Mathematical integers, a ring in which every operator is exact. *)
#[export] Instance Numeric_Z : Numeric Z := {
  value_init := 0;
  zero := 0;
  one := 1;
  add := Z.add;
  sub := Z.sub;
  mul := Z.mul;
  div := Z.quot;
  neg := Z.opp;
  sqrt := Z.sqrt
}.

Section QbVector.

Context {T : Type} `{Numeric T}.

(** The two private members. *)
Record qbVector : Type := mkVector {
  m_vectorData : list T;
  m_nDims : Z
}.

(** [qbVector()] *)
Definition ctor_default : qbVector :=
  {| m_vectorData := []; m_nDims := 0 |}.

(** [qbVector(std::vector<T> inputData)]: [m_nDims = inputData.size()]
    converts a [size_t] to [int]. *)
Definition ctor_seq (inputData : list T) : qbVector :=
  {| m_vectorData := inputData;
     m_nDims := to_int (Z.of_nat (length inputData)) |}.

(** [qbVector(int numDims)]: [std::vector<T>(numDims, 0)] takes its count as
    a [size_t]; a negative [numDims] converts to a count above
    [max_size()] and the [std::vector] constructor throws. *)
Definition ctor_dims (numDims : Z) : outcome qbVector :=
  if numDims <? 0 then Throw length_error
  else Ok {| m_vectorData := replicate (Z.to_nat numDims) zero;
             m_nDims := numDims |}.

(** [GetNumDims()] and [data()] *)
Definition GetNumDims (v : qbVector) : Z := m_nDims v.
Definition data (v : qbVector) : list T := m_vectorData v.

(** *** Storage access *)

(** [std::vector::at(i)], read: checked, throws [std::out_of_range]. *)
Definition vec_at (l : list T) (i : nat) : outcome T :=
  match l !! i with
  | Some x => Ok x
  | None => Throw out_of_range
  end.

(** [l.at(i) = x], write through the checked accessor. *)
Definition vec_at_assign (l : list T) (i : nat) (x : T) : outcome (list T) :=
  if bool_decide (i < length l)%nat then Ok (<[i:=x]> l)
  else Throw out_of_range.

(** [l[idx]] with [idx] a [size_t], read: unchecked, undefined outside the
    storage. *)
Definition vec_subscript (l : list T) (idx : Z) : outcome T :=
  if (0 <=? idx) && (idx <? Z.of_nat (length l)) then
    match l !! Z.to_nat idx with
    | Some x => Ok x
    | None => Undefined
    end
  else Undefined.

(** [l[idx] = x], write through the unchecked accessor. *)
Definition vec_subscript_assign (l : list T) (idx : Z) (x : T)
  : outcome (list T) :=
  if (0 <=? idx) && (idx <? Z.of_nat (length l)) then Ok (<[Z.to_nat idx:=x]> l)
  else Undefined.

(** *** Loops *)

(** The values [i] takes in [for(int i = 0; i < n; ++i)]. *)
Definition loop_range (n : Z) : list nat := seq 0 (Z.to_nat n).

(** Runs the loop body over the indices, threading the variables the body
    updates; the first exception or undefined step ends the loop. *)
Fixpoint for_loop {S : Type} (body : nat -> S -> outcome S)
    (idxs : list nat) (s : S) : outcome S :=
  match idxs with
  | [] => Ok s
  | i :: rest => s' ← body i s; for_loop body rest s'
  end.

(** *** Element access *)

(** [T GetElement(int index) const]: [m_vectorData[index]], no check. *)
Definition GetElement (v : qbVector) (index : Z) : outcome T :=
  vec_subscript (m_vectorData v) (to_size_t index).

(** [void SetElement(int index, T value)]: [m_vectorData[index] = value],
    no check.  Returns the object after the call. *)
Definition SetElement (v : qbVector) (index : Z) (value : T)
  : outcome qbVector :=
  d ← vec_subscript_assign (m_vectorData v) (to_size_t index) value;
  mret {| m_vectorData := d; m_nDims := m_nDims v |}.

(** The two tests of [if(idx < 0 or idx >= m_nDims)], on a [size_t] [idx]:
    the literal [0] and [m_nDims] are converted to [size_t] for the
    comparison. *)
Definition index_below_zero (idx : Z) : bool := idx <? to_size_t 0.
Definition index_beyond_dims (v : qbVector) (idx : Z) : bool :=
  to_size_t (m_nDims v) <=? idx.

(** [T operator[] (const size_t idx) const].  [arg] is the argument as the
    caller wrote it; binding it to the parameter converts it to
    [size_t]. *)
Definition op_index_const (v : qbVector) (arg : Z) : outcome T :=
  let idx := to_size_t arg in
  if index_below_zero idx || index_beyond_dims v idx
  then Throw (invalid_argument msg_index)
  else vec_subscript (m_vectorData v) idx.

(** [T& operator[] (const size_t idx)].  The reference returned is the
    position of the element in the storage. *)
Definition op_index (v : qbVector) (arg : Z) : outcome nat :=
  let idx := to_size_t arg in
  if index_below_zero idx || index_beyond_dims v idx
  then Throw (invalid_argument msg_index)
  else
    if (0 <=? idx) && (idx <? Z.of_nat (length (m_vectorData v)))
    then Ok (Z.to_nat idx) else Undefined.

(** Reading and writing through a reference returned by [op_index]. *)
Definition ref_read (v : qbVector) (loc : nat) : option T :=
  m_vectorData v !! loc.
Definition ref_write (v : qbVector) (loc : nat) (x : T) : qbVector :=
  {| m_vectorData := <[loc:=x]> (m_vectorData v); m_nDims := m_nDims v |}.

(** *** Norm and normalisation *)

(** [T norm()] *)
Definition norm (v : qbVector) : outcome T :=
  cumulativeSum ← for_loop
    (fun i cumulativeSum =>
       x ← vec_at (m_vectorData v) i;
       y ← vec_at (m_vectorData v) i;
       mret (add cumulativeSum (mul x y)))
    (loop_range (m_nDims v)) zero;
  mret (sqrt cumulativeSum).

(** [qbVector<T> operator* (const T& rhs) const] *)
Definition op_mul_scalar (v : qbVector) (rhs : T) : outcome qbVector :=
  resultData ← for_loop
    (fun i resultData =>
       x ← vec_at (m_vectorData v) i;
       mret (resultData ++ [mul x rhs]))
    (loop_range (m_nDims v)) [];
  mret (ctor_seq resultData).

(** [qbVector<T> Normalized()] *)
Definition Normalized (v : qbVector) : outcome qbVector :=
  vecNorm ← norm v;
  let result := ctor_seq (m_vectorData v) in
  op_mul_scalar result (div one vecNorm).

(** [void Normalize()].  The outcome is the object after a call that
    returns; the norm is taken once, before the first element is
    rewritten. *)
Definition Normalize (v : qbVector) : outcome qbVector :=
  vecNorm ← norm v;
  d ← for_loop
    (fun i d =>
       x ← vec_at d i;
       let temp := mul x (div one vecNorm) in
       vec_at_assign d i temp)
    (loop_range (m_nDims v)) (m_vectorData v);
  mret {| m_vectorData := d; m_nDims := m_nDims v |}.

(** *** Overloaded operators *)

(** [qbVector<T> operator+ (const qbVector<T>& rhs) const] *)
Definition op_add (v rhs : qbVector) : outcome qbVector :=
  if negb (m_nDims v =? m_nDims rhs) then Throw (invalid_argument msg_add_sub)
  else
    resultData ← for_loop
      (fun i resultData =>
         x ← vec_at (m_vectorData v) i;
         y ← vec_at (m_vectorData rhs) i;
         mret (resultData ++ [add x y]))
      (loop_range (m_nDims v)) [];
    mret (ctor_seq resultData).

(** [qbVector<T> operator- (const qbVector<T>& rhs) const] *)
Definition op_sub (v rhs : qbVector) : outcome qbVector :=
  if negb (m_nDims v =? m_nDims rhs) then Throw (invalid_argument msg_add_sub)
  else
    resultData ← for_loop
      (fun i resultData =>
         x ← vec_at (m_vectorData v) i;
         y ← vec_at (m_vectorData rhs) i;
         mret (resultData ++ [sub x y]))
      (loop_range (m_nDims v)) [];
    mret (ctor_seq resultData).

(** [qbVector<T> operator* (const qbVector<T>& rhs) const]: the storage of
    the result is created with [m_nDims] value-initialised elements (the
    [std::vector] constructor throws on a negative count) and filled
    through the unchecked subscript. *)
Definition op_mul_vec (v rhs : qbVector) : outcome qbVector :=
  if negb (m_nDims v =? m_nDims rhs) then Throw (invalid_argument msg_add_sub)
  else if m_nDims v <? 0 then Throw length_error
  else
    resultData ← for_loop
      (fun i resultData =>
         x ← vec_at (m_vectorData v) i;
         y ← vec_at (m_vectorData rhs) i;
         vec_subscript_assign resultData (Z.of_nat i) (mul x y))
      (loop_range (m_nDims v))
      (replicate (Z.to_nat (m_nDims v)) value_init);
    mret (ctor_seq resultData).

(** [operator* (const T& lhs, const qbVector<T>& rhs)], the friend. *)
Definition op_scalar_mul (lhs : T) (rhs : qbVector) : outcome qbVector :=
  resultData ← for_loop
    (fun i resultData =>
       x ← vec_at (m_vectorData rhs) i;
       mret (resultData ++ [mul lhs x]))
    (loop_range (m_nDims rhs)) [];
  mret (ctor_seq resultData).

(** *** Static functions *)

(** [static T dot(a, b)] *)
Definition dot (a b : qbVector) : outcome T :=
  if negb (m_nDims a =? m_nDims b) then Throw (invalid_argument msg_dot)
  else
    for_loop
      (fun i cumulativeSum =>
         x ← vec_at (m_vectorData a) i;
         y ← vec_at (m_vectorData b) i;
         mret (add cumulativeSum (mul x y)))
      (loop_range (m_nDims a)) zero.

(** [static qbVector<T> cross(a, b)] *)
Definition cross (a b : qbVector) : outcome qbVector :=
  if negb (m_nDims a =? m_nDims b)
  then Throw (invalid_argument msg_cross_match)
  else if negb (m_nDims a =? 3)
  then Throw (invalid_argument msg_cross_three)
  else
    a1 ← vec_at (m_vectorData a) 1; b2 ← vec_at (m_vectorData b) 2;
    a2 ← vec_at (m_vectorData a) 2; b1 ← vec_at (m_vectorData b) 1;
    let r0 := sub (mul a1 b2) (mul a2 b1) in
    a0 ← vec_at (m_vectorData a) 0; b2 ← vec_at (m_vectorData b) 2;
    a2 ← vec_at (m_vectorData a) 2; b0 ← vec_at (m_vectorData b) 0;
    let r1 := neg (sub (mul a0 b2) (mul a2 b0)) in
    a0 ← vec_at (m_vectorData a) 0; b1 ← vec_at (m_vectorData b) 1;
    a1 ← vec_at (m_vectorData a) 1; b0 ← vec_at (m_vectorData b) 0;
    let r2 := sub (mul a0 b1) (mul a1 b0) in
    mret (ctor_seq ((([] ++ [r0]) ++ [r1]) ++ [r2])).

(** *** The class invariant *)

(** [elements.length == dimension]. *)
Definition class_invariant (v : qbVector) : Prop :=
  m_nDims v = Z.of_nat (length (m_vectorData v)).

(** An object of the class in a consistent state: the invariant holds and
    the member [m_nDims] holds an [int]. *)
Definition well_formed (v : qbVector) : Prop :=
  class_invariant v /\ int_range (m_nDims v).

(** *** Closed forms used to state results *)

(** The value the loop of [norm] accumulates before the square root. *)
Definition sum_of_squares (l : list T) : T :=
  foldl (fun acc p => add acc (mul p.1 p.2)) zero (zip l l).

End QbVector.

Arguments qbVector T : clear implicits.

(** [using vec3 = qbVector<double>] *)
Definition vec3 : Type := qbVector float.

(** *** Sample vectors *)

Definition sample_a : vec3 := ctor_seq [1; 2; 3]%float.
Definition sample_b : vec3 := ctor_seq [4; 5; 6]%float.
Definition sample_short : qbVector float := ctor_seq [3; 4]%float.
Definition sample_empty : qbVector float := ctor_default.
Definition sample_four : qbVector float := ctor_seq [1; 0; 0; 2]%float.
Definition sample_long : list float := replicate (Z.to_nat (2 ^ 31)) 0%float.
Definition sample_wrapped : list float :=
  [3; 4; 0]%float ++ replicate (Z.to_nat (2 ^ 32)) 0%float.
Definition sample_long_vector : qbVector float := ctor_seq sample_long.
Definition sample_wrapped_vector : qbVector float := ctor_seq sample_wrapped.
Definition sample_ints : qbVector Z := ctor_seq [3; 4; 12].
Definition sample_ints' : qbVector Z := ctor_seq [1; -2; 5].

(** ** Auxiliary facts *)

Lemma to_int_id (z : Z) : int_range z -> to_int z = z.
Proof.
  unfold int_range, INT_MIN, INT_MAX, to_int. intros Hz.
  rewrite Z.mod_small; lia.
Qed.

Lemma to_size_t_nonneg (z : Z) : 0 <= to_size_t z <= SIZE_MAX.
Proof.
  unfold to_size_t, SIZE_MAX.
  pose proof (Z.mod_pos_bound z (2 ^ 64)). lia.
Qed.

Lemma to_size_t_id (z : Z) : 0 <= z <= SIZE_MAX -> to_size_t z = z.
Proof. unfold to_size_t, SIZE_MAX. intros Hz. rewrite Z.mod_small; lia. Qed.

Lemma outcome_bind_Ok {A B : Type} (k : A -> outcome B) (a : A) :
  (Ok a ≫= k) = k a.
Proof. reflexivity. Qed.

Section Loops.

Context {A S : Type}.

(** A loop whose body reads element [i] of a list and folds it into the
    loop variable computes the left fold over the list. *)
Lemma for_loop_foldl (body : nat -> S -> outcome S) (step : S -> A -> S)
    (l : list A) :
  forall (start : nat) (s : S),
    (forall i x s', l !! i = Some x ->
       body (start + i)%nat s' = Ok (step s' x)) ->
    for_loop body (seq start (length l)) s = Ok (foldl step s l).
Proof.
  induction l as [|x l IH]; intros start s Hbody; [reflexivity|].
  cbn [length seq for_loop foldl].
  specialize (Hbody 0%nat x s eq_refl) as Hhd.
  rewrite Nat.add_0_r in Hhd. rewrite Hhd, outcome_bind_Ok.
  apply IH. intros i y s' Hi.
  replace (Datatypes.S start + i)%nat with (start + Datatypes.S i)%nat by lia.
  apply Hbody. exact Hi.
Qed.

Lemma foldl_push (f : A -> S) (l : list A) :
  forall acc : list S,
    foldl (fun acc x => acc ++ [f x]) acc l = acc ++ (f <$> l).
Proof.
  induction l as [|x l IH]; intros acc; cbn [foldl fmap list_fmap].
  - by rewrite app_nil_r.
  - rewrite IH, <- app_assoc. reflexivity.
Qed.

End Loops.

Section Facts.

Context {T : Type} `{Numeric T}.

Implicit Types (v a b : qbVector T) (l : list T).

Lemma well_formed_length v :
  well_formed v -> Z.to_nat (m_nDims v) = length (m_vectorData v).
Proof. intros [-> _]. apply Nat2Z.id. Qed.

Lemma loop_range_well_formed v :
  well_formed v -> loop_range (m_nDims v) = seq 0 (length (m_vectorData v)).
Proof. intros Hv. unfold loop_range. by rewrite well_formed_length. Qed.

Lemma ctor_seq_dims l (n : Z) :
  int_range n -> n = Z.of_nat (length l) -> ctor_seq l = mkVector l n.
Proof.
  intros Hn Hl. unfold ctor_seq. rewrite <- Hl, to_int_id by done. reflexivity.
Qed.

Lemma vec_at_lookup l i x : l !! i = Some x -> vec_at l i = Ok x.
Proof. unfold vec_at. by intros ->. Qed.

(** The loop shared by the binary elementwise operators. *)
Lemma zip_loop (op : T -> T -> T) (la lb : list T) :
  length la = length lb ->
  for_loop
    (fun i resultData =>
       x ← vec_at la i; y ← vec_at lb i; mret (resultData ++ [op x y]))
    (seq 0 (length la)) []
  = Ok (zip_with op la lb).
Proof.
  intros Hlen.
  replace (length la) with (length (zip la lb))
    by (rewrite length_zip; lia).
  rewrite for_loop_foldl
    with (step := fun acc p => acc ++ [uncurry op p]).
  - rewrite foldl_push, app_nil_l. by rewrite (zip_with_zip op).
  - intros i [x y] acc Hi. cbn [Nat.add].
    apply lookup_zip_with_Some in Hi as (x' & y' & [= <- <-] & Hx & Hy).
    by rewrite (vec_at_lookup _ _ _ Hx), (vec_at_lookup _ _ _ Hy).
Qed.

(** The loop shared by the two scalar multiplications. *)
Lemma map_loop (f : T -> T) l :
  for_loop
    (fun i resultData => x ← vec_at l i; mret (resultData ++ [f x]))
    (seq 0 (length l)) []
  = Ok (f <$> l).
Proof.
  rewrite for_loop_foldl with (step := fun acc x => acc ++ [f x]).
  - by rewrite foldl_push.
  - intros i x acc Hi. cbn [Nat.add]. by rewrite (vec_at_lookup _ _ _ Hi).
Qed.

(** The loop of [norm] and [dot]. *)
Lemma sum_loop (la lb : list T) :
  length la = length lb ->
  for_loop
    (fun i cumulativeSum =>
       x ← vec_at la i; y ← vec_at lb i; mret (add cumulativeSum (mul x y)))
    (seq 0 (length la)) zero
  = Ok (foldl (fun acc p => add acc (mul p.1 p.2)) zero (zip la lb)).
Proof.
  intros Hlen.
  replace (length la) with (length (zip la lb))
    by (rewrite length_zip; lia).
  apply for_loop_foldl.
  intros i [x y] acc Hi. cbn [Nat.add].
  apply lookup_zip_with_Some in Hi as (x' & y' & [= <- <-] & Hx & Hy).
  by rewrite (vec_at_lookup _ _ _ Hx), (vec_at_lookup _ _ _ Hy).
Qed.

(** The in-place loop of [Normalize]: positions below [i] already hold the
    new values when element [i] is rewritten. *)
Lemma update_loop (f : T -> T) (rest : list T) :
  forall pre : list T,
    for_loop
      (fun i d => x ← vec_at d i; vec_at_assign d i (f x))
      (seq (length pre) (length rest)) (pre ++ rest)
    = Ok (pre ++ (f <$> rest)).
Proof.
  induction rest as [|x rest IH]; intros pre; [reflexivity|].
  cbn [length seq for_loop fmap list_fmap].
  assert (Hx : (pre ++ x :: rest) !! length pre = Some x)
    by (by apply list_lookup_middle).
  rewrite (vec_at_lookup _ _ _ Hx), outcome_bind_Ok. unfold vec_at_assign.
  rewrite bool_decide_eq_true_2 by (rewrite length_app; cbn; lia).
  rewrite outcome_bind_Ok.
  replace (<[length pre:=f x]> (pre ++ x :: rest))
    with ((pre ++ [f x]) ++ rest).
  - replace (Datatypes.S (length pre)) with (length (pre ++ [f x]))
      by (rewrite length_app; cbn; lia).
    rewrite IH, <- app_assoc. reflexivity.
  - rewrite insert_app_r_alt, Nat.sub_diag by done.
    by rewrite <- app_assoc.
Qed.

(** The loop of the elementwise product: the storage starts with one
    value-initialised element per index and is overwritten in place. *)
Lemma overwrite_loop (la lb : list T) (rest : list T) :
  forall pre : list T,
    length la = (length pre + length rest)%nat ->
    length lb = (length pre + length rest)%nat ->
    for_loop
      (fun i resultData =>
         x ← vec_at la i; y ← vec_at lb i;
         vec_subscript_assign resultData (Z.of_nat i) (mul x y))
      (seq (length pre) (length rest)) (pre ++ rest)
    = Ok (pre ++ zip_with mul (drop (length pre) la) (drop (length pre) lb)).
Proof.
  induction rest as [|r rest IH]; intros pre Hla Hlb.
  - cbn [length seq for_loop]. rewrite !drop_ge by (cbn in *; lia).
    reflexivity.
  - cbn [length seq for_loop].
    destruct (lookup_lt_is_Some_2 la (length pre)) as [x Hx];
      [cbn in *; lia|].
    destruct (lookup_lt_is_Some_2 lb (length pre)) as [y Hy];
      [cbn in *; lia|].
    rewrite (vec_at_lookup _ _ _ Hx), outcome_bind_Ok.
    rewrite (vec_at_lookup _ _ _ Hy), outcome_bind_Ok.
    unfold vec_subscript_assign.
    replace ((0 <=? Z.of_nat (length pre))
             && (Z.of_nat (length pre) <? Z.of_nat (length (pre ++ r :: rest))))
      with true
      by (symmetry; apply andb_true_intro; split;
          [apply Z.leb_le; lia
          |apply Z.ltb_lt; rewrite length_app; cbn; lia]).
    rewrite outcome_bind_Ok, Nat2Z.id.
    replace (<[length pre:=mul x y]> (pre ++ r :: rest))
      with ((pre ++ [mul x y]) ++ rest)
      by (rewrite insert_app_r_alt, Nat.sub_diag by done;
          by rewrite <- app_assoc).
    replace (Datatypes.S (length pre)) with (length (pre ++ [mul x y]))
      by (rewrite length_app; cbn; lia).
    rewrite IH by (rewrite length_app; cbn in *; lia).
    rewrite <- app_assoc. cbn [app].
    rewrite length_app. cbn [length].
    rewrite (drop_S la x (length pre)), (drop_S lb y (length pre)) by done.
    replace (length pre + 1)%nat with (Datatypes.S (length pre)) by lia.
    reflexivity.
Qed.

(** *** What each operation returns on well-formed operands *)

Lemma well_formed_same_length a b :
  well_formed a -> well_formed b -> m_nDims a = m_nDims b ->
  length (m_vectorData a) = length (m_vectorData b).
Proof. unfold well_formed, class_invariant. intros [Ha _] [Hb _] Hd. lia. Qed.

Lemma dims_test_eq a b :
  m_nDims a = m_nDims b -> negb (m_nDims a =? m_nDims b) = false.
Proof. intros ->. by rewrite Z.eqb_refl. Qed.

Lemma dims_test_ne a b :
  m_nDims a <> m_nDims b -> negb (m_nDims a =? m_nDims b) = true.
Proof. intros Hd. apply negb_true_iff, Z.eqb_neq, Hd. Qed.

Lemma op_add_ok a b :
  well_formed a -> well_formed b -> m_nDims a = m_nDims b ->
  op_add a b
  = Ok (mkVector (zip_with add (m_vectorData a) (m_vectorData b)) (m_nDims a)).
Proof.
  intros Ha Hb Hd. unfold op_add.
  rewrite (dims_test_eq _ _ Hd), (loop_range_well_formed _ Ha).
  rewrite zip_loop by by apply well_formed_same_length.
  rewrite outcome_bind_Ok. unfold mret, outcome_ret. f_equal.
  apply ctor_seq_dims; [apply Ha|].
  rewrite length_zip_with, <- (well_formed_same_length a b) by done.
  rewrite Nat.min_id. apply Ha.
Qed.

Lemma op_sub_ok a b :
  well_formed a -> well_formed b -> m_nDims a = m_nDims b ->
  op_sub a b
  = Ok (mkVector (zip_with sub (m_vectorData a) (m_vectorData b)) (m_nDims a)).
Proof.
  intros Ha Hb Hd. unfold op_sub.
  rewrite (dims_test_eq _ _ Hd), (loop_range_well_formed _ Ha).
  rewrite zip_loop by by apply well_formed_same_length.
  rewrite outcome_bind_Ok. unfold mret, outcome_ret. f_equal.
  apply ctor_seq_dims; [apply Ha|].
  rewrite length_zip_with, <- (well_formed_same_length a b) by done.
  rewrite Nat.min_id. apply Ha.
Qed.

Lemma op_mul_vec_ok a b :
  well_formed a -> well_formed b -> m_nDims a = m_nDims b ->
  op_mul_vec a b
  = Ok (mkVector (zip_with mul (m_vectorData a) (m_vectorData b)) (m_nDims a)).
Proof.
  intros Ha Hb Hd. unfold op_mul_vec.
  rewrite (dims_test_eq _ _ Hd), (loop_range_well_formed _ Ha).
  replace (m_nDims a <? 0) with false
    by (symmetry; apply Z.ltb_ge; destruct Ha as [-> _]; lia).
  rewrite (well_formed_length _ Ha).
  pose proof (overwrite_loop (m_vectorData a) (m_vectorData b)
    (replicate (length (m_vectorData a)) value_init) []) as Hloop.
  rewrite length_replicate in Hloop. cbn [length app drop] in Hloop.
  rewrite Hloop by (by rewrite <- ?(well_formed_same_length a b)).
  rewrite outcome_bind_Ok. unfold mret, outcome_ret. f_equal.
  apply ctor_seq_dims; [apply Ha|].
  rewrite length_zip_with, <- (well_formed_same_length a b) by done.
  rewrite Nat.min_id. apply Ha.
Qed.

Lemma op_mul_scalar_ok v (rhs : T) :
  well_formed v ->
  op_mul_scalar v rhs
  = Ok (mkVector ((fun x => mul x rhs) <$> m_vectorData v) (m_nDims v)).
Proof.
  intros Hv. unfold op_mul_scalar.
  rewrite (loop_range_well_formed _ Hv), (map_loop (fun x => mul x rhs)).
  rewrite outcome_bind_Ok. unfold mret, outcome_ret. f_equal.
  apply ctor_seq_dims; [apply Hv|].
  rewrite length_fmap. apply Hv.
Qed.

Lemma op_scalar_mul_ok (lhs : T) v :
  well_formed v ->
  op_scalar_mul lhs v
  = Ok (mkVector (mul lhs <$> m_vectorData v) (m_nDims v)).
Proof.
  intros Hv. unfold op_scalar_mul.
  rewrite (loop_range_well_formed _ Hv), (map_loop (mul lhs)).
  rewrite outcome_bind_Ok. unfold mret, outcome_ret. f_equal.
  apply ctor_seq_dims; [apply Hv|].
  rewrite length_fmap. apply Hv.
Qed.

Lemma norm_ok v :
  well_formed v -> norm v = Ok (sqrt (sum_of_squares (m_vectorData v))).
Proof.
  intros Hv. unfold norm.
  rewrite (loop_range_well_formed _ Hv), sum_loop by done.
  reflexivity.
Qed.

Lemma dot_ok a b :
  well_formed a -> well_formed b -> m_nDims a = m_nDims b ->
  dot a b
  = Ok (foldl (fun acc p => add acc (mul p.1 p.2)) zero
          (zip (m_vectorData a) (m_vectorData b))).
Proof.
  intros Ha Hb Hd. unfold dot.
  rewrite (dims_test_eq _ _ Hd), (loop_range_well_formed _ Ha).
  by rewrite sum_loop by by apply well_formed_same_length.
Qed.

Lemma well_formed_mk l (n : Z) :
  n = Z.of_nat (length l) -> int_range n -> well_formed (mkVector l n).
Proof. by split. Qed.

Lemma well_formed_ctor_seq l :
  Z.of_nat (length l) <= INT_MAX -> well_formed (ctor_seq l).
Proof.
  intros Hl.
  assert (Hr : int_range (Z.of_nat (length l)))
    by (unfold int_range, INT_MIN in *; lia).
  rewrite (ctor_seq_dims l _ Hr eq_refl). by apply well_formed_mk.
Qed.

Lemma Normalized_ok v :
  well_formed v ->
  Normalized v
  = Ok (mkVector
          ((fun x => mul x (div one (sqrt (sum_of_squares (m_vectorData v)))))
             <$> m_vectorData v)
          (m_nDims v)).
Proof.
  intros Hv. unfold Normalized. rewrite (norm_ok _ Hv), outcome_bind_Ok.
  destruct Hv as [Hlen Hint].
  rewrite (ctor_seq_dims _ _ Hint Hlen).
  rewrite op_mul_scalar_ok by by apply well_formed_mk.
  reflexivity.
Qed.

Lemma Normalize_ok v :
  well_formed v ->
  Normalize v
  = Ok (mkVector
          ((fun x => mul x (div one (sqrt (sum_of_squares (m_vectorData v)))))
             <$> m_vectorData v)
          (m_nDims v)).
Proof.
  intros Hv. unfold Normalize. rewrite (norm_ok _ Hv), outcome_bind_Ok.
  rewrite (loop_range_well_formed _ Hv).
  pose proof (update_loop
    (fun x => mul x (div one (sqrt (sum_of_squares (m_vectorData v)))))
    (m_vectorData v) []) as Hloop.
  cbn [length app] in Hloop. rewrite Hloop. reflexivity.
Qed.

(** Reading an element of a well-formed vector inside its range. *)
Lemma GetElement_in_range v (i : Z) :
  well_formed v -> 0 <= i < m_nDims v ->
  exists x, m_vectorData v !! Z.to_nat i = Some x /\ GetElement v i = Ok x.
Proof.
  unfold well_formed, class_invariant. intros [Hlen Hint] Hi.
  destruct (lookup_lt_is_Some_2 (m_vectorData v) (Z.to_nat i)) as [x Hx];
    [lia|].
  exists x. split; [done|]. unfold GetElement, vec_subscript.
  rewrite to_size_t_id
    by (unfold int_range, INT_MAX, SIZE_MAX in *; lia).
  replace ((0 <=? i) && (i <? Z.of_nat (length (m_vectorData v)))) with true
    by (symmetry; apply andb_true_intro; split;
        [apply Z.leb_le|apply Z.ltb_lt]; lia).
  by rewrite Hx.
Qed.

Lemma GetElement_lookup v (i : Z) (x : T) :
  well_formed v -> 0 <= i < m_nDims v ->
  m_vectorData v !! Z.to_nat i = Some x -> GetElement v i = Ok x.
Proof.
  intros Hv Hi Hx.
  destruct (GetElement_in_range v i Hv Hi) as (x' & Hx' & ->). congruence.
Qed.

Lemma well_formed_zip_with (op : T -> T -> T) a b :
  well_formed a -> well_formed b -> m_nDims a = m_nDims b ->
  well_formed
    (mkVector (zip_with op (m_vectorData a) (m_vectorData b)) (m_nDims a)).
Proof.
  intros Ha Hb Hd. apply well_formed_mk; [|apply Ha].
  rewrite length_zip_with, <- (well_formed_same_length a b) by done.
  rewrite Nat.min_id. apply Ha.
Qed.

Lemma well_formed_fmap (f : T -> T) v :
  well_formed v -> well_formed (mkVector (f <$> m_vectorData v) (m_nDims v)).
Proof.
  intros Hv. apply well_formed_mk; [|apply Hv].
  rewrite length_fmap. apply Hv.
Qed.

(** An [int] argument bound to a [size_t] parameter. *)
Lemma to_size_t_int (i : Z) :
  int_range i -> to_size_t i = if i <? 0 then i + 2 ^ 64 else i.
Proof.
  unfold int_range, INT_MIN, INT_MAX, to_size_t. intros Hi.
  destruct (i <? 0) eqn:Hneg.
  - apply Z.ltb_lt in Hneg.
    rewrite <- (Z.mod_add i 1 (2 ^ 64)) by lia.
    rewrite Z.mod_small; lia.
  - apply Z.ltb_ge in Hneg. rewrite Z.mod_small; lia.
Qed.

Lemma range_test_true (l : list T) (idx : Z) :
  0 <= idx < Z.of_nat (length l) ->
  (0 <=? idx) && (idx <? Z.of_nat (length l)) = true.
Proof.
  intros Hi. apply andb_true_intro. split; [apply Z.leb_le|apply Z.ltb_lt]; lia.
Qed.

Lemma range_test_false (l : list T) (idx : Z) :
  Z.of_nat (length l) <= idx ->
  (0 <=? idx) && (idx <? Z.of_nat (length l)) = false.
Proof.
  intros Hi. apply andb_false_intro2, Z.ltb_ge. exact Hi.
Qed.

Lemma vec_subscript_no_throw (l : list T) (idx : Z) (e : exn) :
  vec_subscript l idx <> Throw e.
Proof.
  unfold vec_subscript.
  destruct ((0 <=? idx) && (idx <? Z.of_nat (length l))); [|discriminate].
  destruct (l !! Z.to_nat idx); discriminate.
Qed.

Lemma index_below_zero_false (arg : Z) :
  index_below_zero (to_size_t arg) = false.
Proof.
  unfold index_below_zero. apply Z.ltb_ge.
  change (to_size_t 0) with 0. apply to_size_t_nonneg.
Qed.

End Facts.

(** ** Elementwise arithmetic *)

Section Arithmetic.

Context {T : Type} `{Numeric T}.

(** C1: for vectors [a] and [b] of equal dimension, [operator+] and
    [operator-] return a new vector of that dimension whose element [i] is
    [a[i] + b[i]], respectively [a[i] - b[i]], for every index
    [0 <= i < dimension]; when the dimensions differ both operators throw
    the dimension-mismatch [std::invalid_argument]. *)
Theorem add_sub_elementwise (a b : qbVector T) :
  well_formed a -> well_formed b ->
  (m_nDims a = m_nDims b ->
   exists s d : qbVector T,
     op_add a b = Ok s /\ op_sub a b = Ok d /\
     m_nDims s = m_nDims a /\ m_nDims d = m_nDims a /\
     well_formed s /\ well_formed d /\
     forall i : Z, 0 <= i < m_nDims a ->
       exists x y : T,
         GetElement a i = Ok x /\ GetElement b i = Ok y /\
         GetElement s i = Ok (add x y) /\ GetElement d i = Ok (sub x y))
  /\
  (m_nDims a <> m_nDims b ->
   op_add a b = Throw (invalid_argument msg_add_sub) /\
   op_sub a b = Throw (invalid_argument msg_add_sub) /\
   kind_of (invalid_argument msg_add_sub) = DimensionMismatch).
Proof.
  intros Ha Hb. split.
  - intros Hd.
    pose proof (well_formed_zip_with add a b Ha Hb Hd) as Hs.
    pose proof (well_formed_zip_with sub a b Ha Hb Hd) as Hdf.
    eexists _, _. rewrite op_add_ok, op_sub_ok by done.
    do 2 (split; [reflexivity|]). cbn [m_nDims].
    do 2 (split; [reflexivity|]). do 2 (split; [assumption|]).
    intros i Hi.
    destruct (GetElement_in_range a i Ha Hi) as (x & Hx & Gx).
    destruct (GetElement_in_range b i Hb) as (y & Hy & Gy); [lia|].
    exists x, y. do 2 (split; [assumption|]).
    split; apply GetElement_lookup; try assumption;
      cbn [m_vectorData]; apply lookup_zip_with_Some; eauto.
  - intros Hd. unfold op_add, op_sub. rewrite (dims_test_ne _ _ Hd).
    repeat split.
Qed.

(** C6: for every vector [v] and scalar [s], the friend [s * v] and the
    member [v * s] return identical vectors of the dimension of [v] whose
    element [i] is [v[i] * s]; neither has a dimension precondition and
    neither fails.  The friend multiplies with the scalar on the left, so
    the statement is for element types whose product commutes. *)
Theorem scalar_mul_sides_agree (v : qbVector T) (s : T) :
  (forall x y : T, mul x y = mul y x) ->
  well_formed v ->
  exists r : qbVector T,
    op_scalar_mul s v = Ok r /\ op_mul_scalar v s = Ok r /\
    m_nDims r = m_nDims v /\ well_formed r /\
    forall i : Z, 0 <= i < m_nDims v ->
      exists x : T, GetElement v i = Ok x /\ GetElement r i = Ok (mul x s).
Proof.
  intros Hcomm Hv.
  exists (mkVector ((fun x => mul x s) <$> m_vectorData v) (m_nDims v)).
  pose proof (well_formed_fmap (fun x => mul x s) v Hv) as Hr.
  split.
  - rewrite op_scalar_mul_ok by done. do 2 f_equal.
    apply list_fmap_ext. intros _ x _. apply Hcomm.
  - split; [by apply op_mul_scalar_ok|].
    do 2 (split; [done|]). intros i Hi.
    destruct (GetElement_in_range v i Hv Hi) as (x & Hx & Gx).
    exists x. split; [assumption|].
    apply GetElement_lookup; [assumption..|].
    cbn [m_vectorData]. by rewrite list_lookup_fmap, Hx.
Qed.

(** C7: for vectors [a] and [b] of equal dimension, [a - b] is
    [a + b * (-1)]: scaling [b] by minus one and adding returns the vector
    the subtraction returns.  Stated for element types in which
    [x - y = x + y * (-1)]. *)
Theorem sub_is_add_of_scaled (a b : qbVector T) :
  (forall x y : T, sub x y = add x (mul y (neg one))) ->
  well_formed a -> well_formed b -> m_nDims a = m_nDims b ->
  exists nb r : qbVector T,
    op_mul_scalar b (neg one) = Ok nb /\
    op_add a nb = Ok r /\ op_sub a b = Ok r.
Proof.
  intros Hlaw Ha Hb Hd.
  pose proof (well_formed_fmap (fun x => mul x (neg one)) b Hb) as Hnb.
  eexists _, _. split; [by apply op_mul_scalar_ok|].
  split; [by apply op_add_ok|].
  rewrite op_sub_ok by done. cbn [m_vectorData]. do 2 f_equal.
  rewrite zip_with_fmap_r. apply zip_with_ext; [|done..].
  intros x y. apply Hlaw.
Qed.

End Arithmetic.

(** ** Norm and normalisation *)

Section Normalisation.

Context {T : Type} `{Numeric T}.

(** C5: for every vector [v] whose norm is not zero, the object left by the
    in-place [Normalize()] has the dimension and the elements of the vector
    that [Normalized()] returns for the original [v].  (Both evaluate
    [x * (1 / norm)] on every element, with the norm taken before the first
    element is rewritten.) *)
Theorem Normalize_agrees_with_Normalized (v : qbVector T) :
  well_formed v -> norm v <> Ok zero ->
  exists r : qbVector T,
    Normalized v = Ok r /\ Normalize v = Ok r /\
    m_nDims r = m_nDims v /\
    length (m_vectorData r) = length (m_vectorData v).
Proof.
  intros Hv _. eexists. split; [by apply Normalized_ok|].
  split; [by apply Normalize_ok|].
  cbn [m_nDims m_vectorData]. by rewrite length_fmap.
Qed.

End Normalisation.

(** ** Dot and cross product *)

Section Products.

Context {T : Type} `{Numeric T}.

(** C2: for vectors [a] and [b] of dimension 3, [cross(a, b)] returns the
    3-element vector [a1*b2 - a2*b1], [-(a0*b2 - a2*b0)],
    [a0*b1 - a1*b0]. *)
Theorem cross_formula (a b : qbVector T) :
  well_formed a -> well_formed b -> m_nDims a = 3 -> m_nDims b = 3 ->
  exists a0 a1 a2 b0 b1 b2 : T,
    m_vectorData a = [a0; a1; a2] /\ m_vectorData b = [b0; b1; b2] /\
    cross a b
    = Ok (mkVector
            [sub (mul a1 b2) (mul a2 b1);
             neg (sub (mul a0 b2) (mul a2 b0));
             sub (mul a0 b1) (mul a1 b0)]
            3).
Proof.
  intros [Ha _] [Hb _] Hda Hdb. unfold class_invariant in Ha, Hb.
  unfold cross. rewrite Hda, Hdb. rewrite Hda in Ha. rewrite Hdb in Hb.
  destruct (m_vectorData a) as [|a0 [|a1 [|a2 [|? ?]]]];
    try (cbn in Ha; lia).
  destruct (m_vectorData b) as [|b0 [|b1 [|b2 [|? ?]]]];
    try (cbn in Hb; lia).
  exists a0, a1, a2, b0, b1, b2. do 2 (split; [reflexivity|]).
  reflexivity.
Qed.

(** C4: [cross(a, b)] tests its operands in this order: dimensions that
    differ give the dimension-mismatch error; equal dimensions other than 3
    give the invalid-dimension error.  Two 4-dimensional operands fail with
    the invalid-dimension error. *)
Theorem cross_checks_in_order (a b : qbVector T) :
  (m_nDims a <> m_nDims b ->
   cross a b = Throw (invalid_argument msg_cross_match))
  /\ (m_nDims a = m_nDims b -> m_nDims a <> 3 ->
      cross a b = Throw (invalid_argument msg_cross_three))
  /\ (m_nDims a = 4 -> m_nDims b = 4 ->
      cross a b = Throw (invalid_argument msg_cross_three))
  /\ kind_of (invalid_argument msg_cross_match) = DimensionMismatch
  /\ kind_of (invalid_argument msg_cross_three) = InvalidDimension.
Proof.
  assert (Hthree : m_nDims a = m_nDims b -> m_nDims a <> 3 ->
                   cross a b = Throw (invalid_argument msg_cross_three)).
  { intros Hd H3. unfold cross. rewrite (dims_test_eq _ _ Hd).
    apply Z.eqb_neq in H3. by rewrite H3. }
  split; [|split; [exact Hthree|split; [|split; reflexivity]]].
  - intros Hd. unfold cross. by rewrite (dims_test_ne _ _ Hd).
  - intros Ha Hb. apply Hthree; lia.
Qed.

(** C10: for vectors [a] and [b] of dimension 0, [dot(a, b)] returns
    [static_cast<T>(0.0)], the empty sum, and does not throw. *)
Theorem dot_of_empty (a b : qbVector T) :
  m_nDims a = 0 -> m_nDims b = 0 -> dot a b = Ok zero.
Proof.
  intros Ha Hb. unfold dot. rewrite Ha, Hb. reflexivity.
Qed.

End Products.

(** ** Element access *)

Section Access.

Context {T : Type} `{Numeric T}.

(** C9: in both checked indexing operators the test [idx < 0] is false at
    every call, whatever argument the caller writes, because the parameter
    is a [size_t]; the operators throw exactly when the test
    [idx >= m_nDims] holds, and what they throw is the index-out-of-range
    [std::invalid_argument]. *)
Theorem negative_index_test_dead (v : qbVector T) (arg : Z) :
  index_below_zero (to_size_t arg) = false
  /\ ((exists e, op_index_const v arg = Throw e)
      <-> index_beyond_dims v (to_size_t arg) = true)
  /\ ((exists e, op_index v arg = Throw e)
      <-> index_beyond_dims v (to_size_t arg) = true)
  /\ (forall e, op_index_const v arg = Throw e \/ op_index v arg = Throw e ->
        e = invalid_argument msg_index /\ kind_of e = IndexOutOfRange).
Proof.
  pose proof (index_below_zero_false arg) as Hneg.
  split; [exact Hneg|].
  unfold op_index_const, op_index. cbv zeta. rewrite Hneg. cbn [orb].
  destruct (index_beyond_dims v (to_size_t arg)).
  - split; [|split].
    + split; [reflexivity|eauto].
    + split; [reflexivity|eauto].
    + intros e [[= <-]|[= <-]]; split; reflexivity.
  - split; [|split].
    + split; [|discriminate]. intros [e He].
      by apply vec_subscript_no_throw in He.
    + split; [|discriminate]. intros [e He].
      destruct ((0 <=? to_size_t arg)
                && (to_size_t arg <? Z.of_nat (length (m_vectorData v))));
        discriminate.
    + intros e [He|He].
      * by apply vec_subscript_no_throw in He.
      * destruct ((0 <=? to_size_t arg)
                  && (to_size_t arg <? Z.of_nat (length (m_vectorData v))));
          discriminate.
Qed.

(** C3, as the code has it: [GetElement] and [SetElement] subscript the
    storage without any test.  Inside [0 <= i < dimension] they read and
    replace element [i] and the dimension stays; outside it they raise
    nothing, the access is undefined.  The index-out-of-range error comes
    from the checked [operator[]], which throws for every [int] index below
    0 or at or above the dimension. *)
Theorem element_access_contract (v : qbVector T) (i : Z) (value : T) :
  well_formed v -> int_range i ->
  (0 <= i < m_nDims v ->
   exists x : T,
     m_vectorData v !! Z.to_nat i = Some x /\
     GetElement v i = Ok x /\
     SetElement v i value
     = Ok (mkVector (<[Z.to_nat i:=value]> (m_vectorData v)) (m_nDims v)) /\
     op_index_const v i = Ok x /\ op_index v i = Ok (Z.to_nat i))
  /\
  (i < 0 \/ m_nDims v <= i ->
   GetElement v i = Undefined /\ SetElement v i value = Undefined /\
   op_index_const v i = Throw (invalid_argument msg_index) /\
   op_index v i = Throw (invalid_argument msg_index) /\
   kind_of (invalid_argument msg_index) = IndexOutOfRange).
Proof.
  intros Hv Hi. pose proof Hv as [Hlen Hint].
  unfold class_invariant in Hlen.
  pose proof (to_size_t_int i Hi) as Hconv.
  pose proof (to_size_t_int (m_nDims v) Hint) as Hdims.
  replace (m_nDims v <? 0) with false in Hdims
    by (symmetry; apply Z.ltb_ge; lia).
  unfold int_range, INT_MIN, INT_MAX in Hi, Hint.
  split.
  - intros Hin.
    replace (i <? 0) with false in Hconv by (symmetry; apply Z.ltb_ge; lia).
    destruct (GetElement_in_range v i Hv Hin) as (x & Hx & Gx).
    exists x. do 2 (split; [assumption|]).
    unfold SetElement, op_index_const, op_index, index_beyond_dims.
    cbv zeta. rewrite index_below_zero_false, Hconv, Hdims. cbn [orb].
    replace (m_nDims v <=? i) with false by (symmetry; apply Z.leb_gt; lia).
    unfold vec_subscript_assign, vec_subscript.
    rewrite range_test_true, Hx by lia. repeat split.
  - intros Hout.
    assert (Hbig : Z.of_nat (length (m_vectorData v)) <= to_size_t i).
    { rewrite Hconv. destruct (i <? 0) eqn:Hneg; [lia|].
      apply Z.ltb_ge in Hneg. lia. }
    unfold GetElement, SetElement, op_index_const, op_index, index_beyond_dims.
    cbv zeta. rewrite index_below_zero_false, Hdims. cbn [orb].
    replace (m_nDims v <=? to_size_t i) with true
      by (symmetry; apply Z.leb_le; lia).
    unfold vec_subscript_assign, vec_subscript.
    rewrite range_test_false by exact Hbig. repeat split.
Qed.

End Access.

(** ** The class invariant *)

Section Invariant.

Context {T : Type} `{Numeric T}.

Implicit Types (v a b : qbVector T).

Lemma ctor_dims_ok (n : Z) :
  int_range n -> 0 <= n ->
  exists v, ctor_dims n = Ok v /\ well_formed v /\ m_nDims v = n.
Proof.
  intros Hint Hn. unfold ctor_dims.
  replace (n <? 0) with false by (symmetry; apply Z.ltb_ge; lia).
  eexists. split; [reflexivity|]. split; [|reflexivity].
  apply well_formed_mk; [|exact Hint]. rewrite length_replicate. lia.
Qed.

Lemma SetElement_keeps v (i : Z) (x : T) (v' : qbVector T) :
  well_formed v -> SetElement v i x = Ok v' ->
  well_formed v' /\ m_nDims v' = m_nDims v.
Proof.
  intros [Hlen Hint]. unfold SetElement, vec_subscript_assign.
  destruct ((0 <=? to_size_t i)
            && (to_size_t i <? Z.of_nat (length (m_vectorData v))));
    [|discriminate].
  intros [= <-]. split; [|reflexivity].
  apply well_formed_mk; [|exact Hint]. by rewrite length_insert.
Qed.

Lemma cross_keeps a b :
  well_formed a -> well_formed b -> m_nDims a = 3 -> m_nDims b = 3 ->
  exists c, cross a b = Ok c /\ well_formed c /\ m_nDims c = 3.
Proof.
  intros Ha Hb Hda Hdb.
  pose proof (well_formed_length a Ha) as Hla.
  pose proof (well_formed_length b Hb) as Hlb.
  rewrite Hda in Hla. rewrite Hdb in Hlb.
  unfold cross. rewrite Hda, Hdb.
  destruct (m_vectorData a) as [|a0 [|a1 [|a2 [|? ?]]]]; try discriminate Hla.
  destruct (m_vectorData b) as [|b0 [|b1 [|b2 [|? ?]]]]; try discriminate Hlb.
  eexists. split; [reflexivity|]. split; [|reflexivity].
  split; [reflexivity|]. unfold int_range, INT_MIN, INT_MAX.
  cbn [m_nDims ctor_seq]. change (to_int _) with 3. lia.
Qed.

(** C8, as the code has it: the default constructor and the sized
    constructor establish [elements.length == dimension]; the constructor
    from a sequence establishes it for sequences of at most [INT_MAX]
    elements, the dimension being stored in an [int]; on vectors that
    satisfy it, every arithmetic operation returns a vector that satisfies
    it, of the dimension of its operands, and [Normalize()] and the element
    writes keep both the invariant and the dimension. *)
Theorem invariant_established_and_kept :
  well_formed (@ctor_default T)
  /\ (forall n : Z, int_range n -> 0 <= n ->
        exists v, ctor_dims n = Ok v /\ well_formed v /\ m_nDims v = n)
  /\ (forall n : Z, n < 0 -> @ctor_dims T _ n = Throw length_error)
  /\ (forall l : list T, Z.of_nat (length l) <= INT_MAX ->
        well_formed (ctor_seq l) /\ m_nDims (ctor_seq l) = Z.of_nat (length l))
  /\ (forall a b, well_formed a -> well_formed b -> m_nDims a = m_nDims b ->
        exists s d p,
          op_add a b = Ok s /\ op_sub a b = Ok d /\ op_mul_vec a b = Ok p /\
          well_formed s /\ well_formed d /\ well_formed p /\
          m_nDims s = m_nDims a /\ m_nDims d = m_nDims a /\
          m_nDims p = m_nDims a)
  /\ (forall v (k : T), well_formed v ->
        exists r l n,
          op_mul_scalar v k = Ok r /\ op_scalar_mul k v = Ok l /\
          Normalized v = Ok n /\
          well_formed r /\ well_formed l /\ well_formed n /\
          m_nDims r = m_nDims v /\ m_nDims l = m_nDims v /\
          m_nDims n = m_nDims v)
  /\ (forall a b, well_formed a -> well_formed b ->
        m_nDims a = 3 -> m_nDims b = 3 ->
        exists c, cross a b = Ok c /\ well_formed c /\ m_nDims c = 3)
  /\ (forall v, well_formed v ->
        exists v', Normalize v = Ok v' /\ well_formed v' /\
                   m_nDims v' = m_nDims v)
  /\ (forall v (i : Z) (x : T) v', well_formed v -> SetElement v i x = Ok v' ->
        well_formed v' /\ m_nDims v' = m_nDims v)
  /\ (forall v (loc : nat) (x : T), well_formed v ->
        well_formed (ref_write v loc x) /\
        m_nDims (ref_write v loc x) = m_nDims v).
Proof.
  assert (Hsmall : forall n : Z, 0 <= n <= 3 -> int_range n)
    by (unfold int_range, INT_MIN, INT_MAX; lia).
  split; [apply well_formed_mk; [reflexivity|apply Hsmall; lia]|].
  split; [exact ctor_dims_ok|].
  split.
  { intros n Hn. unfold ctor_dims.
    by replace (n <? 0) with true by (symmetry; apply Z.ltb_lt; lia). }
  split.
  { intros l Hl. split; [by apply well_formed_ctor_seq|].
    unfold ctor_seq. cbn [m_nDims]. apply to_int_id.
    unfold int_range, INT_MIN in *. lia. }
  split.
  { intros a b Ha Hb Hd. eexists _, _, _.
    rewrite op_add_ok, op_sub_ok, op_mul_vec_ok by done.
    do 3 (split; [reflexivity|]).
    do 3 (split; [by apply well_formed_zip_with|]).
    repeat split. }
  split.
  { intros v k Hv. eexists _, _, _.
    rewrite op_mul_scalar_ok, op_scalar_mul_ok, Normalized_ok by done.
    do 3 (split; [reflexivity|]).
    do 3 (split; [by apply well_formed_fmap|]).
    repeat split. }
  split; [exact cross_keeps|].
  split.
  { intros v Hv. eexists. rewrite Normalize_ok by done.
    split; [reflexivity|]. split; [by apply well_formed_fmap|reflexivity]. }
  split; [exact SetElement_keeps|].
  intros v loc x [Hlen Hint]. split; [|reflexivity].
  apply well_formed_mk; [|exact Hint]. cbn [m_vectorData ref_write].
  by rewrite length_insert.
Qed.

End Invariant.

(** ** Sample vectors are well formed *)

Ltac sample_wf :=
  split; [vm_compute; reflexivity | vm_compute; split; discriminate].

Lemma sample_a_wf : well_formed sample_a.
Proof. sample_wf. Qed.

Lemma sample_b_wf : well_formed sample_b.
Proof. sample_wf. Qed.

Lemma sample_short_wf : well_formed sample_short.
Proof. sample_wf. Qed.

Lemma sample_empty_wf : well_formed sample_empty.
Proof. sample_wf. Qed.

Lemma sample_ints_wf : well_formed sample_ints.
Proof. sample_wf. Qed.

Lemma sample_ints'_wf : well_formed sample_ints'.
Proof. sample_wf. Qed.

Lemma add_sub_elementwise_witness :
  (exists s d : vec3,
     op_add sample_a sample_b = Ok s /\ op_sub sample_a sample_b = Ok d /\
     GetElement s 2 = Ok 9%float /\ GetElement d 2 = Ok (-3)%float)
  /\ op_add sample_a sample_short = Throw (invalid_argument msg_add_sub).
Proof.
  split.
  - destruct (proj1 (add_sub_elementwise sample_a sample_b
                       sample_a_wf sample_b_wf) eq_refl)
      as (s & d & Hs & Hd & _ & _ & _ & _ & Hget).
    exists s, d. do 2 (split; [assumption|]).
    destruct (Hget 2) as (x & y & Hx & Hy & Hsx & Hdx);
      [vm_compute; split; [discriminate|reflexivity]|].
    injection Hx as <-. injection Hy as <-. split; assumption.
  - apply (proj2 (add_sub_elementwise sample_a sample_short
                    sample_a_wf sample_short_wf)).
    vm_compute. discriminate.
Defined.

(** The product of [double] commutes. *)
Lemma SF64mul_comm (x y : spec_float) : SF64mul x y = SF64mul y x.
Proof.
  unfold SF64mul.
  destruct x as [sx|sx| |sx mx ex], y as [sy|sy| |sy my ey];
    cbn [SFmul]; rewrite ?(xorb_comm sx sy); try reflexivity.
  by rewrite (Pos.mul_comm mx my), (Z.add_comm ex ey).
Qed.

Lemma double_mul_law (x y : float) : mul x y = mul y x.
Proof.
  apply Prim2SF_inj. cbn [mul Numeric_double].
  rewrite !mul_spec. apply SF64mul_comm.
Qed.

Lemma scalar_mul_sides_agree_witness :
  exists r : vec3,
    op_scalar_mul 2%float sample_a = Ok r /\
    op_mul_scalar sample_a 2%float = Ok r /\
    GetElement r 1 = Ok 4%float.
Proof.
  destruct (scalar_mul_sides_agree sample_a 2%float double_mul_law sample_a_wf)
    as (r & Hl & Hr & _ & _ & Hget).
  exists r. do 2 (split; [assumption|]).
  destruct (Hget 1) as (x & Hx & Hrx);
    [vm_compute; split; [discriminate|reflexivity]|].
  injection Hx as <-. exact Hrx.
Defined.

(** On [double], [x - y] is [x + y * (-1.0)]: subtracting is adding the
    opposite, and the product with [-1.0] is exact. *)
Lemma SF64sub_add_opp (x y : spec_float) :
  SF64sub x y = SF64add x (SFopp y).
Proof.
  unfold SF64sub, SF64add.
  destruct x as [[|]|[|]| |sx mx ex], y as [[|]|[|]| |sy my ey];
    cbn [SFsub SFadd SFopp negb]; try reflexivity.
  f_equal. destruct sy; cbn [cond_Zopp negb]; lia.
Qed.

Lemma SF64mul_minus_one (y : spec_float) :
  valid_binary y = true ->
  SF64mul y (S754_finite true 4503599627370496 (-52)) = SFopp y.
Proof.
  unfold SF64mul, valid_binary.
  destruct y as [[|]|[|]| |s m e];
    cbn [SFmul SFopp xorb negb SpecFloat.valid_binary]; try reflexivity.
  intros Hb. unfold bounded, canonical_mantissa in Hb.
  apply andb_prop in Hb as [Hc He]. apply Z.eqb_eq in Hc.
  replace (xorb s true) with (negb s) by (destruct s; reflexivity).
  rewrite Pos.mul_comm. cbv [Pos.mul].
  unfold binary_round_aux, shr_fexp. cbn [Zdigits2 digits2_pos].
  set (d := digits2_pos m) in *.
  match goal with
  | |- context [fexp prec emax (Z.pos ?p + (e + -52))] =>
      replace (Z.pos p + (e + -52)) with (Z.pos d + e) by lia
  end.
  rewrite Hc. replace (e - (e + -52)) with 52 by lia.
  cbn [shr SpecFloat.iter_pos shr_1 shr_record_of_loc orb shr_m
       loc_of_shr_record round_nearest_even Zdigits2].
  fold d. replace (e + -52 + 52) with e by lia.
  rewrite Hc, Z.sub_diag. cbn [shr shr_m]. rewrite He. reflexivity.
Qed.

Lemma double_sub_law (x y : float) : sub x y = add x (mul y (neg one)).
Proof.
  cbn [sub add mul neg one Numeric_double].
  change (PrimFloat.opp 1%float) with (-1)%float.
  apply Prim2SF_inj.
  rewrite sub_spec, add_spec, mul_spec.
  change (Prim2SF (-1)%float)
    with (S754_finite true 4503599627370496 (-52)).
  rewrite SF64mul_minus_one by apply Prim2SF_valid.
  apply SF64sub_add_opp.
Qed.

Lemma sub_is_add_of_scaled_witness :
  exists nb r : vec3,
    op_mul_scalar sample_b (-1)%float = Ok nb /\
    op_add sample_a nb = Ok r /\ op_sub sample_a sample_b = Ok r.
Proof.
  apply (sub_is_add_of_scaled sample_a sample_b double_sub_law
           sample_a_wf sample_b_wf).
  reflexivity.
Defined.

Lemma Normalize_agrees_with_Normalized_witness :
  exists r : qbVector float,
    Normalized sample_short = Ok r /\ Normalize sample_short = Ok r /\
    m_nDims r = 2.
Proof.
  destruct (Normalize_agrees_with_Normalized sample_short sample_short_wf)
    as (r & Hcopy & Hplace & Hdim & _).
  - intros Hnorm.
    apply (f_equal (fun o => match o with
                             | Ok x => PrimFloat.eqb x 0
                             | _ => false
                             end)) in Hnorm.
    vm_compute in Hnorm. discriminate.
  - exists r. do 2 (split; [assumption|]). exact Hdim.
Defined.

Lemma cross_formula_witness :
  cross sample_a sample_b = Ok (mkVector [-3; 6; -3]%float 3).
Proof.
  destruct (cross_formula sample_a sample_b sample_a_wf sample_b_wf
              eq_refl eq_refl)
    as (a0 & a1 & a2 & b0 & b1 & b2 & Ha & Hb & Hcross).
  injection Ha as <- <- <-. injection Hb as <- <- <-.
  rewrite Hcross. vm_compute. reflexivity.
Defined.

Lemma cross_checks_in_order_witness :
  cross sample_a sample_short = Throw (invalid_argument msg_cross_match)
  /\ cross sample_four sample_four = Throw (invalid_argument msg_cross_three)
  /\ cross sample_four sample_a = Throw (invalid_argument msg_cross_match).
Proof.
  split; [|split].
  - apply (proj1 (cross_checks_in_order sample_a sample_short)).
    vm_compute. discriminate.
  - apply (proj1 (proj2 (cross_checks_in_order sample_four sample_four)));
      [reflexivity | vm_compute; discriminate].
  - apply (proj1 (cross_checks_in_order sample_four sample_a)).
    vm_compute. discriminate.
Defined.

Lemma dot_of_empty_witness : dot sample_empty sample_empty = Ok 0%float.
Proof. exact (dot_of_empty sample_empty sample_empty eq_refl eq_refl). Defined.

Lemma negative_index_test_dead_witness :
  index_below_zero (to_size_t (-1)) = false
  /\ (exists e, op_index_const sample_a (-1) = Throw e)
  /\ (exists e, op_index sample_a 3 = Throw e).
Proof.
  split; [|split].
  - apply (proj1 (negative_index_test_dead sample_a (-1))).
  - apply (proj1 (proj2 (negative_index_test_dead sample_a (-1)))).
    vm_compute. reflexivity.
  - apply (proj1 (proj2 (proj2 (negative_index_test_dead sample_a 3)))).
    vm_compute. reflexivity.
Defined.

(** [GetElement(5)] and [SetElement(5, 0.0)] on a 3-dimensional vector raise
    nothing. *)
Lemma GetElement_unchecked_counterexample :
  m_nDims sample_a = 3
  /\ GetElement sample_a 5 = Undefined
  /\ SetElement sample_a 5 0%float = Undefined
  /\ ~ (exists e,
          GetElement sample_a 5 = Throw e /\ kind_of e = IndexOutOfRange).
Proof.
  split; [reflexivity|]. split; [vm_compute; reflexivity|].
  split; [vm_compute; reflexivity|].
  intros (e & He & _). vm_compute in He. discriminate.
Qed.

Lemma element_access_contract_witness :
  GetElement sample_a 1 = Ok 2%float
  /\ GetElement sample_a 5 = Undefined
  /\ op_index_const sample_a 5 = Throw (invalid_argument msg_index)
  /\ op_index_const sample_a (-1) = Throw (invalid_argument msg_index).
Proof.
  assert (Hint : forall i, -10 <= i <= 10 -> int_range i)
    by (unfold int_range, INT_MIN, INT_MAX; lia).
  split; [|split; [|split]].
  - destruct (proj1 (element_access_contract sample_a 1 0%float
                       sample_a_wf (Hint 1 ltac:(lia))))
      as (x & Hx & Gx & _); [vm_compute; split; [discriminate|reflexivity]|].
    injection Hx as <-. exact Gx.
  - apply (proj2 (element_access_contract sample_a 5 0%float
                    sample_a_wf (Hint 5 ltac:(lia)))).
    right. vm_compute. discriminate.
  - apply (proj2 (element_access_contract sample_a 5 0%float
                    sample_a_wf (Hint 5 ltac:(lia)))).
    right. vm_compute. discriminate.
  - apply (proj2 (element_access_contract sample_a (-1) 0%float
                    sample_a_wf (Hint (-1) ltac:(lia)))).
    left. lia.
Defined.

(** A sequence of [2^31] elements: the [int] member wraps to [INT_MIN]. *)
Lemma ctor_seq_long_counterexample :
  Z.of_nat (length (m_vectorData (ctor_seq sample_long))) = 2 ^ 31
  /\ m_nDims (ctor_seq sample_long) = - 2 ^ 31
  /\ ~ class_invariant (ctor_seq sample_long).
Proof.
  assert (Hlen : Z.of_nat (length sample_long) = 2 ^ 31).
  { unfold sample_long. rewrite length_replicate. apply Z2Nat.id. lia. }
  assert (Hdim : m_nDims (ctor_seq sample_long) = - 2 ^ 31).
  { unfold ctor_seq. cbn [m_nDims]. rewrite Hlen. reflexivity. }
  split; [exact Hlen|]. split; [exact Hdim|].
  unfold class_invariant. rewrite Hdim.
  change (m_vectorData (ctor_seq sample_long)) with sample_long.
  rewrite Hlen. discriminate.
Qed.

Lemma invariant_established_and_kept_witness :
  well_formed (ctor_seq [1; 2; 3]%float)
  /\ (exists v : qbVector float,
        ctor_dims 4 = Ok v /\ well_formed v /\ m_nDims v = 4)
  /\ (exists v' : qbVector float,
        Normalize sample_short = Ok v' /\ well_formed v' /\ m_nDims v' = 2).
Proof.
  pose proof (@invariant_established_and_kept float _)
    as (_ & Hdims & _ & Hseq & _ & _ & _ & Hnorm & _).
  split; [|split].
  - apply Hseq. vm_compute. discriminate.
  - apply Hdims; [vm_compute; split; discriminate|lia].
  - destruct (Hnorm sample_short sample_short_wf) as (v' & Hv' & Hwf & Hd).
    exists v'. split; [assumption|]. split; [assumption|]. exact Hd.
Defined.

(** The end-to-end example of the specification, on [vec3].  The middle
    component of the cross product is the negation of [0.0]. *)
Example vec3_unit_vectors :
  let a := ctor_seq [1; 0; 0]%float in
  let b := ctor_seq [0; 1; 0]%float in
  cross a b = Ok (mkVector [0; -0; 1]%float 3)
  /\ dot a b = Ok 0%float
  /\ norm a = Ok 1%float.
Proof. vm_compute. repeat split. Qed.

(** ** Further properties: element writes and round trips *)

Section ElementWrites.

Context {T : Type} `{Numeric T}.

Implicit Types (v : qbVector T).

Lemma well_formed_dims_size_t v :
  well_formed v -> to_size_t (m_nDims v) = m_nDims v.
Proof.
  intros [Hlen Hint]. unfold class_invariant in Hlen. apply to_size_t_id.
  unfold int_range, INT_MAX, SIZE_MAX in *. lia.
Qed.

Lemma SetElement_in_range v (i : Z) (x : T) :
  well_formed v -> 0 <= i < m_nDims v ->
  SetElement v i x
  = Ok (mkVector (<[Z.to_nat i:=x]> (m_vectorData v)) (m_nDims v)).
Proof.
  intros Hv Hi. pose proof Hv as [Hlen Hint]. unfold class_invariant in Hlen.
  unfold SetElement, vec_subscript_assign.
  rewrite to_size_t_id
    by (unfold int_range, INT_MAX, SIZE_MAX in *; lia).
  rewrite range_test_true by lia. reflexivity.
Qed.

Lemma checked_index_inside v (arg : Z) :
  well_formed v -> to_size_t arg < m_nDims v ->
  exists x : T,
    m_vectorData v !! Z.to_nat (to_size_t arg) = Some x /\
    op_index_const v arg = Ok x /\
    op_index v arg = Ok (Z.to_nat (to_size_t arg)).
Proof.
  intros Hv Hin. pose proof Hv as [Hlen Hint]. unfold class_invariant in Hlen.
  pose proof (to_size_t_nonneg arg) as Hpos.
  destruct (lookup_lt_is_Some_2 (m_vectorData v) (Z.to_nat (to_size_t arg)))
    as [x Hx]; [lia|].
  exists x. split; [exact Hx|].
  unfold op_index_const, op_index, index_beyond_dims. cbv zeta.
  rewrite index_below_zero_false, (well_formed_dims_size_t v Hv). cbn [orb].
  replace (m_nDims v <=? to_size_t arg) with false
    by (symmetry; apply Z.leb_gt; lia).
  unfold vec_subscript. rewrite range_test_true, Hx by lia. split; reflexivity.
Qed.

Lemma checked_index_outside v (arg : Z) :
  well_formed v -> m_nDims v <= to_size_t arg ->
  op_index_const v arg = Throw (invalid_argument msg_index) /\
  op_index v arg = Throw (invalid_argument msg_index).
Proof.
  intros Hv Hout.
  unfold op_index_const, op_index, index_beyond_dims. cbv zeta.
  rewrite index_below_zero_false, (well_formed_dims_size_t v Hv). cbn [orb].
  replace (m_nDims v <=? to_size_t arg) with true
    by (symmetry; apply Z.leb_le; lia).
  split; reflexivity.
Qed.

(** X1: writing element [i] with [SetElement] and reading it back with
    [GetElement] gives the value written; every other element and the
    dimension are as before. *)
Theorem SetElement_then_GetElement v (i : Z) (x : T) :
  well_formed v -> 0 <= i < m_nDims v ->
  exists v' : qbVector T,
    SetElement v i x = Ok v' /\ GetElement v' i = Ok x /\
    GetNumDims v' = GetNumDims v /\
    forall j : Z, 0 <= j < m_nDims v -> j <> i ->
      GetElement v' j = GetElement v j.
Proof.
  intros Hv Hi. pose proof Hv as [Hlen Hint]. unfold class_invariant in Hlen.
  assert (Hv' : well_formed
            (mkVector (<[Z.to_nat i:=x]> (m_vectorData v)) (m_nDims v))).
  { apply well_formed_mk; [|exact Hint]. by rewrite length_insert. }
  eexists. split; [by apply SetElement_in_range|].
  split; [|split; [reflexivity|]].
  - apply GetElement_lookup; [exact Hv'|exact Hi|].
    cbn [m_vectorData]. apply list_lookup_insert_eq. lia.
  - intros j Hj Hne.
    destruct (GetElement_in_range v j Hv Hj) as (y & Hy & ->).
    apply GetElement_lookup; [exact Hv'|exact Hj|].
    cbn [m_vectorData]. rewrite list_lookup_insert_ne by lia. exact Hy.
Qed.

(** X2: assigning through the reference returned by the mutable
    [operator[]] and reading the same index with the read-only
    [operator[]] gives the value assigned; reads at other indices, and the
    dimension, are unchanged. *)
Theorem op_index_write_then_read v (arg : Z) (loc : nat) (x : T) :
  well_formed v -> op_index v arg = Ok loc ->
  op_index_const (ref_write v loc x) arg = Ok x /\
  GetNumDims (ref_write v loc x) = GetNumDims v /\
  forall arg' : Z, to_size_t arg' <> to_size_t arg ->
    op_index_const (ref_write v loc x) arg' = op_index_const v arg'.
Proof.
  intros Hv Hloc. pose proof Hv as [Hlen Hint]. unfold class_invariant in Hlen.
  pose proof (to_size_t_nonneg arg) as Hpos.
  assert (Hw : well_formed (ref_write v loc x)).
  { apply well_formed_mk; [|exact Hint]. cbn [m_vectorData ref_write].
    by rewrite length_insert. }
  destruct (Z.lt_ge_cases (to_size_t arg) (m_nDims v)) as [Hin|Hout].
  - destruct (checked_index_inside v arg Hv Hin) as (y & Hy & _ & Hidx).
    rewrite Hidx in Hloc. injection Hloc as <-.
    split; [|split; [reflexivity|]].
    + destruct (checked_index_inside _ arg Hw Hin) as (z & Hz & -> & _).
      cbn [m_vectorData ref_write] in Hz.
      rewrite list_lookup_insert_eq in Hz by lia. congruence.
    + intros arg' Hne. pose proof (to_size_t_nonneg arg') as Hpos'.
      destruct (Z.lt_ge_cases (to_size_t arg') (m_nDims v)) as [Hin'|Hout'].
      * destruct (checked_index_inside v arg' Hv Hin') as (y' & Hy' & -> & _).
        destruct (checked_index_inside _ arg' Hw Hin') as (z' & Hz' & -> & _).
        cbn [m_vectorData ref_write] in Hz'.
        rewrite list_lookup_insert_ne in Hz' by lia. congruence.
      * destruct (checked_index_outside v arg' Hv Hout') as [-> _].
        by destruct (checked_index_outside _ arg' Hw Hout') as [-> _].
  - destruct (checked_index_outside v arg Hv Hout) as [_ Hthrow].
    rewrite Hthrow in Hloc. discriminate.
Qed.

(** X3: on a well-formed vector the checked [operator[]] never reaches the
    storage outside its bounds, whatever the argument: either the converted
    index is below the dimension and both operators return that element, or
    it is not and both throw the index-out-of-range error. *)
Theorem op_index_total v (arg : Z) :
  well_formed v ->
  (to_size_t arg < m_nDims v /\
   exists x : T,
     m_vectorData v !! Z.to_nat (to_size_t arg) = Some x /\
     op_index_const v arg = Ok x /\
     op_index v arg = Ok (Z.to_nat (to_size_t arg)))
  \/
  (m_nDims v <= to_size_t arg /\
   op_index_const v arg = Throw (invalid_argument msg_index) /\
   op_index v arg = Throw (invalid_argument msg_index)).
Proof.
  intros Hv.
  destruct (Z.lt_ge_cases (to_size_t arg) (m_nDims v)) as [Hin|Hout].
  - left. split; [exact Hin|]. by apply checked_index_inside.
  - right. split; [exact Hout|]. by apply checked_index_outside.
Qed.

(** X4: [data()] returns the sequence a vector was constructed from, and
    constructing a vector from the [data()] of a well-formed vector gives
    that vector back, dimension included. *)
Theorem data_ctor_seq_round_trip v (l : list T) :
  well_formed v ->
  data (ctor_seq l) = l /\ ctor_seq (data v) = v /\
  (Z.of_nat (length l) <= INT_MAX ->
   GetNumDims (ctor_seq l) = Z.of_nat (length l)).
Proof.
  intros [Hlen Hint]. split; [reflexivity|]. split.
  - unfold data. rewrite (ctor_seq_dims _ _ Hint Hlen). by destruct v.
  - intros Hl. unfold GetNumDims, ctor_seq. cbn [m_nDims]. apply to_int_id.
    unfold int_range, INT_MIN in *. lia.
Qed.

(** X5: the sized constructor gives a vector of the requested dimension
    all of whose elements read [static_cast<T>(0.0)]. *)
Theorem ctor_dims_reads_zero (n i : Z) :
  int_range n -> 0 <= i < n ->
  exists z : qbVector T,
    ctor_dims n = Ok z /\ GetNumDims z = n /\ GetElement z i = Ok zero.
Proof.
  intros Hn Hi. unfold ctor_dims.
  replace (n <? 0) with false by (symmetry; apply Z.ltb_ge; lia).
  eexists. split; [reflexivity|]. split; [reflexivity|].
  apply GetElement_lookup; [|exact Hi|].
  - apply well_formed_mk; [|exact Hn]. rewrite length_replicate. lia.
  - cbn [m_vectorData]. apply lookup_replicate_2. lia.
Qed.

End ElementWrites.

Lemma SetElement_then_GetElement_witness :
  exists v' : vec3,
    SetElement sample_a 1 7%float = Ok v' /\ GetElement v' 1 = Ok 7%float /\
    GetElement v' 2 = Ok 3%float.
Proof.
  destruct (SetElement_then_GetElement sample_a 1 7%float sample_a_wf)
    as (v' & Hset & Hget & _ & Hother);
    [vm_compute; split; [discriminate|reflexivity]|].
  exists v'. do 2 (split; [assumption|]).
  rewrite Hother; [vm_compute; reflexivity| |discriminate].
  vm_compute. split; [discriminate|reflexivity].
Defined.

Lemma op_index_write_then_read_witness :
  op_index_const (ref_write sample_a 2 9%float) 2 = Ok 9%float.
Proof.
  apply (op_index_write_then_read sample_a 2 2%nat 9%float sample_a_wf).
  vm_compute. reflexivity.
Defined.

Lemma op_index_total_witness :
  (exists x, op_index_const sample_a 1 = Ok x)
  \/ op_index_const sample_a 1 = Throw (invalid_argument msg_index).
Proof.
  destruct (op_index_total sample_a 1 sample_a_wf)
    as [(_ & x & _ & Hx & _)|(_ & Hthrow & _)].
  - left. exists x. exact Hx.
  - right. exact Hthrow.
Defined.

Lemma data_ctor_seq_round_trip_witness :
  data (ctor_seq [1; 2; 3]%float) = [1; 2; 3]%float
  /\ ctor_seq (data sample_a) = sample_a.
Proof.
  destruct (data_ctor_seq_round_trip sample_a [1; 2; 3]%float sample_a_wf)
    as (Hdata & Hctor & _).
  split; assumption.
Defined.

Lemma ctor_dims_reads_zero_witness :
  exists z : qbVector float,
    ctor_dims 4 = Ok z /\ GetNumDims z = 4 /\ GetElement z 3 = Ok 0%float.
Proof.
  apply (@ctor_dims_reads_zero float Numeric_double 4 3).
  - vm_compute. split; discriminate.
  - lia.
Defined.

(** ** Further properties: norm, dot product and elementwise product *)

Section Sums.

Context {T : Type} `{Numeric T}.

Implicit Types (v a b : qbVector T).

Lemma foldl_dot_replicate_zero (n : nat) :
  add zero (mul zero zero) = zero ->
  foldl (fun acc p => add acc (mul p.1 p.2)) zero
    (zip (replicate n (zero : T)) (replicate n (zero : T)))
  = zero.
Proof.
  intros Hz. rewrite zip_with_replicate.
  induction n as [|n IH]; [reflexivity|].
  cbn [replicate foldl fst snd]. rewrite Hz. exact IH.
Qed.

Lemma foldl_dot_comm (la : list T) :
  (forall x y : T, mul x y = mul y x) ->
  forall (lb : list T) (acc : T),
    foldl (fun acc p => add acc (mul p.1 p.2)) acc (zip la lb)
    = foldl (fun acc p => add acc (mul p.1 p.2)) acc (zip lb la).
Proof.
  intros Hcomm. induction la as [|x la IH]; intros [|y lb] acc;
    try reflexivity.
  cbn [zip_with foldl fst snd]. rewrite (Hcomm x y). apply IH.
Qed.

(** X6: when [0 + 0 * 0] is [0] in the element type, the norm of the
    zero-filled vector of any dimension is [sqrt(0)], and its dot product
    with itself is [0]. *)
Theorem norm_of_zeros (n : Z) :
  add zero (mul zero zero) = (zero : T) -> int_range n -> 0 <= n ->
  exists z : qbVector T,
    ctor_dims n = Ok z /\ norm z = Ok (sqrt zero) /\ dot z z = Ok zero.
Proof.
  intros Hz Hn Hpos. unfold ctor_dims.
  replace (n <? 0) with false by (symmetry; apply Z.ltb_ge; lia).
  eexists. split; [reflexivity|].
  assert (Hwf : well_formed
            (mkVector (replicate (Z.to_nat n) (zero : T)) n)).
  { apply well_formed_mk; [|exact Hn]. rewrite length_replicate. lia. }
  rewrite norm_ok, dot_ok by done. cbn [m_vectorData]. unfold sum_of_squares.
  by rewrite foldl_dot_replicate_zero.
Qed.

(** X7: the norm of a vector is the square root of its dot product with
    itself: both loops accumulate the same sum. *)
Theorem norm_is_sqrt_of_dot v :
  well_formed v ->
  exists d : T, dot v v = Ok d /\ norm v = Ok (sqrt d).
Proof.
  intros Hv. eexists. split; [by apply dot_ok|]. by apply norm_ok.
Qed.

(** X8: on operands of equal dimension [dot] returns the sum, accumulated
    from [0] in index order, of the products [a[i] * b[i]], and no access
    to the storage fails; on operands of different dimensions it throws its
    dimension-mismatch error. *)
Theorem dot_value_or_mismatch a b :
  well_formed a -> well_formed b ->
  (m_nDims a = m_nDims b ->
   dot a b
   = Ok (foldl (fun acc p => add acc (mul p.1 p.2)) zero
           (zip (m_vectorData a) (m_vectorData b))))
  /\
  (m_nDims a <> m_nDims b ->
   dot a b = Throw (invalid_argument msg_dot) /\
   kind_of (invalid_argument msg_dot) = DimensionMismatch).
Proof.
  intros Ha Hb. split.
  - intros Hd. by apply dot_ok.
  - intros Hd. unfold dot. rewrite (dims_test_ne _ _ Hd). by split.
Qed.

(** X9: on operands of equal dimension the elementwise [operator*] returns
    a vector of that dimension whose element [i] is [a[i] * b[i]] (nothing
    of the value-initialised storage it starts from is left); on operands
    of different dimensions it throws the dimension-mismatch error. *)
Theorem op_mul_vec_elementwise a b :
  well_formed a -> well_formed b ->
  (m_nDims a = m_nDims b ->
   exists p : qbVector T,
     op_mul_vec a b = Ok p /\ GetNumDims p = GetNumDims a /\
     well_formed p /\
     forall i : Z, 0 <= i < m_nDims a ->
       exists x y : T,
         GetElement a i = Ok x /\ GetElement b i = Ok y /\
         GetElement p i = Ok (mul x y))
  /\
  (m_nDims a <> m_nDims b ->
   op_mul_vec a b = Throw (invalid_argument msg_add_sub) /\
   kind_of (invalid_argument msg_add_sub) = DimensionMismatch).
Proof.
  intros Ha Hb. split.
  - intros Hd.
    pose proof (well_formed_zip_with mul a b Ha Hb Hd) as Hp.
    eexists. rewrite op_mul_vec_ok by done.
    split; [reflexivity|]. split; [reflexivity|]. split; [exact Hp|].
    intros i Hi.
    destruct (GetElement_in_range a i Ha Hi) as (x & Hx & Gx).
    destruct (GetElement_in_range b i Hb) as (y & Hy & Gy); [lia|].
    exists x, y. do 2 (split; [assumption|]).
    apply GetElement_lookup; [exact Hp|exact Hi|].
    cbn [m_vectorData]. apply lookup_zip_with_Some. eauto.
  - intros Hd. unfold op_mul_vec. rewrite (dims_test_ne _ _ Hd). by split.
Qed.

(** X10: [dot] is symmetric when the product of the element type
    commutes: [dot(a, b)] and [dot(b, a)] have the same outcome, a value
    when the dimensions are equal. *)
Theorem dot_symmetric a b :
  (forall x y : T, mul x y = mul y x) ->
  well_formed a -> well_formed b ->
  dot a b = dot b a /\
  (m_nDims a = m_nDims b -> exists d : T, dot a b = Ok d).
Proof.
  intros Hcomm Ha Hb.
  destruct (decide (m_nDims a = m_nDims b)) as [Hd|Hd].
  - rewrite (dot_ok a b), (dot_ok b a) by done.
    rewrite (foldl_dot_comm _ Hcomm). split; [reflexivity|eauto].
  - split; [|done]. unfold dot.
    rewrite (dims_test_ne _ _ Hd), (dims_test_ne b a) by congruence.
    reflexivity.
Qed.

(** X11: [operator+] commutes when the sum of the element type commutes:
    [a + b] and [b + a] have the same outcome, a vector when the dimensions
    are equal. *)
Theorem op_add_commutes a b :
  (forall x y : T, add x y = add y x) ->
  well_formed a -> well_formed b ->
  op_add a b = op_add b a /\
  (m_nDims a = m_nDims b -> exists s : qbVector T, op_add a b = Ok s).
Proof.
  intros Hcomm Ha Hb.
  destruct (decide (m_nDims a = m_nDims b)) as [Hd|Hd].
  - rewrite (op_add_ok a b), (op_add_ok b a) by done.
    split; [|eauto]. rewrite Hd. do 2 f_equal.
    rewrite <- zip_with_flip. by apply zip_with_ext.
  - split; [|done]. unfold op_add.
    rewrite (dims_test_ne _ _ Hd), (dims_test_ne b a) by congruence.
    reflexivity.
Qed.

(** X12: the elementwise [operator*] commutes when the product of the
    element type commutes. *)
Theorem op_mul_vec_commutes a b :
  (forall x y : T, mul x y = mul y x) ->
  well_formed a -> well_formed b ->
  op_mul_vec a b = op_mul_vec b a /\
  (m_nDims a = m_nDims b -> exists p : qbVector T, op_mul_vec a b = Ok p).
Proof.
  intros Hcomm Ha Hb.
  destruct (decide (m_nDims a = m_nDims b)) as [Hd|Hd].
  - rewrite (op_mul_vec_ok a b), (op_mul_vec_ok b a) by done.
    split; [|eauto]. rewrite Hd. do 2 f_equal.
    rewrite <- zip_with_flip. by apply zip_with_ext.
  - split; [|done]. unfold op_mul_vec.
    rewrite (dims_test_ne _ _ Hd), (dims_test_ne b a) by congruence.
    reflexivity.
Qed.

End Sums.

(** The sum of [double] commutes. *)
Lemma SF64add_comm (x y : spec_float) : SF64add x y = SF64add y x.
Proof.
  unfold SF64add.
  destruct x as [[|]|[|]| |sx mx ex], y as [[|]|[|]| |sy my ey];
    cbn [SFadd Bool.eqb]; try reflexivity.
  by rewrite (Z.min_comm ex ey), Z.add_comm.
Qed.

Lemma double_add_law (x y : float) : add x y = add y x.
Proof.
  apply Prim2SF_inj. cbn [add Numeric_double].
  rewrite !add_spec. apply SF64add_comm.
Qed.

Lemma norm_of_zeros_witness :
  exists z : qbVector float,
    ctor_dims 5 = Ok z /\ norm z = Ok 0%float /\ dot z z = Ok 0%float.
Proof.
  apply (@norm_of_zeros float Numeric_double 5).
  - vm_compute. reflexivity.
  - vm_compute. split; discriminate.
  - lia.
Defined.

Lemma norm_is_sqrt_of_dot_witness :
  exists d : float, dot sample_short sample_short = Ok d /\
                    norm sample_short = Ok (PrimFloat.sqrt d).
Proof. exact (norm_is_sqrt_of_dot sample_short sample_short_wf). Defined.

Lemma dot_value_or_mismatch_witness :
  dot sample_a sample_b = Ok 32%float
  /\ dot sample_a sample_short = Throw (invalid_argument msg_dot).
Proof.
  split.
  - rewrite (proj1 (dot_value_or_mismatch sample_a sample_b
                      sample_a_wf sample_b_wf) eq_refl).
    vm_compute. reflexivity.
  - apply (proj2 (dot_value_or_mismatch sample_a sample_short
                    sample_a_wf sample_short_wf)).
    vm_compute. discriminate.
Defined.

Lemma op_mul_vec_elementwise_witness :
  (exists p : vec3,
     op_mul_vec sample_a sample_b = Ok p /\ GetElement p 2 = Ok 18%float)
  /\ op_mul_vec sample_a sample_short = Throw (invalid_argument msg_add_sub).
Proof.
  split.
  - destruct (proj1 (op_mul_vec_elementwise sample_a sample_b
                       sample_a_wf sample_b_wf) eq_refl)
      as (p & Hp & _ & _ & Hget).
    exists p. split; [assumption|].
    destruct (Hget 2) as (x & y & Hx & Hy & Hpx);
      [vm_compute; split; [discriminate|reflexivity]|].
    injection Hx as <-. injection Hy as <-. exact Hpx.
  - apply (proj2 (op_mul_vec_elementwise sample_a sample_short
                    sample_a_wf sample_short_wf)).
    vm_compute. discriminate.
Defined.

Lemma dot_symmetric_witness : dot sample_a sample_b = dot sample_b sample_a.
Proof.
  apply (dot_symmetric sample_a sample_b double_mul_law
           sample_a_wf sample_b_wf).
Defined.

Lemma op_add_commutes_witness :
  op_add sample_a sample_b = op_add sample_b sample_a.
Proof.
  apply (op_add_commutes sample_a sample_b double_add_law
           sample_a_wf sample_b_wf).
Defined.

Lemma op_mul_vec_commutes_witness :
  op_mul_vec sample_a sample_b = op_mul_vec sample_b sample_a.
Proof.
  apply (op_mul_vec_commutes sample_a sample_b double_mul_law
           sample_a_wf sample_b_wf).
Defined.

(** ** Further properties: element types with exact ring arithmetic *)

Section ExactArithmetic.

Context {T : Type} `{Numeric T}.

Hypothesis Rth : ring_theory zero one add mul sub neg (@eq T).

Add Ring element_ring : Rth.

Implicit Types (v a b : qbVector T).

Lemma zip_with_sub_add (la : list T) :
  forall lb : list T, length la = length lb ->
    zip_with sub (zip_with add la lb) lb = la.
Proof.
  induction la as [|x la IH]; intros [|y lb] Hlen; try discriminate Hlen.
  - reflexivity.
  - cbn [zip_with]. rewrite IH by (cbn in Hlen; lia). f_equal. ring.
Qed.

Lemma cross_components a b :
  well_formed a -> well_formed b -> m_nDims a = 3 -> m_nDims b = 3 ->
  exists a0 a1 a2 b0 b1 b2 : T,
    m_vectorData a = [a0; a1; a2] /\ m_vectorData b = [b0; b1; b2] /\
    cross a b
    = Ok (mkVector
            [sub (mul a1 b2) (mul a2 b1);
             neg (sub (mul a0 b2) (mul a2 b0));
             sub (mul a0 b1) (mul a1 b0)]
            3).
Proof.
  intros Ha Hb Hda Hdb.
  pose proof (well_formed_length a Ha) as Hla.
  pose proof (well_formed_length b Hb) as Hlb.
  rewrite Hda in Hla. rewrite Hdb in Hlb.
  unfold cross. rewrite Hda, Hdb.
  destruct (m_vectorData a) as [|a0 [|a1 [|a2 [|? ?]]]]; try discriminate Hla.
  destruct (m_vectorData b) as [|b0 [|b1 [|b2 [|? ?]]]]; try discriminate Hlb.
  exists a0, a1, a2, b0, b1, b2. repeat split.
Qed.

Lemma well_formed_three (x y z : T) : well_formed (mkVector [x; y; z] 3).
Proof.
  apply well_formed_mk; [reflexivity|].
  unfold int_range, INT_MIN, INT_MAX. lia.
Qed.

(** X13: in an element type that is a ring, [cross] is anti-commutative:
    for operands of dimension 3, scaling [cross(b, a)] by [-1] gives
    [cross(a, b)]. *)
Theorem cross_anticommutes a b :
  well_formed a -> well_formed b -> m_nDims a = 3 -> m_nDims b = 3 ->
  exists c c' : qbVector T,
    cross a b = Ok c /\ cross b a = Ok c' /\
    op_mul_scalar c' (neg one) = Ok c.
Proof.
  intros Ha Hb Hda Hdb.
  destruct (cross_components a b Ha Hb Hda Hdb)
    as (a0 & a1 & a2 & b0 & b1 & b2 & Ea & Eb & Hab).
  destruct (cross_components b a Hb Ha Hdb Hda)
    as (b0' & b1' & b2' & a0' & a1' & a2' & Eb' & Ea' & Hba).
  rewrite Ea in Ea'. injection Ea' as <- <- <-.
  rewrite Eb in Eb'. injection Eb' as <- <- <-.
  eexists _, _. do 2 (split; [eassumption|]).
  rewrite op_mul_scalar_ok by apply well_formed_three.
  cbn [m_vectorData m_nDims fmap list_fmap].
  do 3 f_equal; [ring|]. f_equal; [ring|]. f_equal. ring.
Qed.

(** X14: in an element type that is a ring, the cross product is
    orthogonal to both operands: its dot product with each of them is
    [0]. *)
Theorem cross_orthogonal a b :
  well_formed a -> well_formed b -> m_nDims a = 3 -> m_nDims b = 3 ->
  exists c : qbVector T,
    cross a b = Ok c /\ dot c a = Ok zero /\ dot c b = Ok zero.
Proof.
  intros Ha Hb Hda Hdb.
  destruct (cross_components a b Ha Hb Hda Hdb)
    as (a0 & a1 & a2 & b0 & b1 & b2 & Ea & Eb & Hab).
  eexists. split; [eassumption|].
  rewrite !dot_ok by (try apply well_formed_three; done).
  cbn [m_vectorData]. rewrite Ea, Eb. cbn [zip_with foldl fst snd].
  split; f_equal; ring.
Qed.

(** X15: in an element type that is a ring, subtracting [b] from [a + b]
    gives [a] back. *)
Theorem op_add_then_op_sub a b :
  well_formed a -> well_formed b -> m_nDims a = m_nDims b ->
  exists s : qbVector T, op_add a b = Ok s /\ op_sub s b = Ok a.
Proof.
  intros Ha Hb Hd.
  pose proof (well_formed_zip_with add a b Ha Hb Hd) as Hs.
  eexists. split; [by apply op_add_ok|].
  rewrite op_sub_ok by done. cbn [m_vectorData m_nDims].
  rewrite zip_with_sub_add by by apply well_formed_same_length.
  by destruct a.
Qed.

End ExactArithmetic.

Lemma Z_ring_law : ring_theory (zero : Z) one add mul sub neg eq.
Proof. exact InitialRing.Zth. Qed.

Lemma cross_anticommutes_witness :
  exists c c' : qbVector Z,
    cross sample_ints sample_ints' = Ok c /\
    cross sample_ints' sample_ints = Ok c' /\
    op_mul_scalar c' (-1) = Ok c.
Proof.
  apply (cross_anticommutes Z_ring_law sample_ints sample_ints'
           sample_ints_wf sample_ints'_wf); reflexivity.
Defined.

Lemma cross_orthogonal_witness :
  exists c : qbVector Z,
    cross sample_ints sample_ints' = Ok c /\
    dot c sample_ints = Ok 0 /\ dot c sample_ints' = Ok 0.
Proof.
  apply (cross_orthogonal Z_ring_law sample_ints sample_ints'
           sample_ints_wf sample_ints'_wf); reflexivity.
Defined.

Lemma op_add_then_op_sub_witness :
  exists s : qbVector Z,
    op_add sample_ints sample_ints' = Ok s /\
    op_sub s sample_ints' = Ok sample_ints.
Proof.
  apply (op_add_then_op_sub Z_ring_law sample_ints sample_ints'
           sample_ints_wf sample_ints'_wf).
  reflexivity.
Defined.

(** ** Further properties: edge behaviour *)

(** X16: on [double], normalising the zero-filled vector of any dimension
    raises nothing: the norm is [0.0], the scale factor [1.0 / 0.0] is
    infinite and every element of the result, copied or in place, is
    NaN. *)
Theorem normalising_zeros_gives_nan (n : Z) :
  int_range n -> 0 <= n ->
  exists z : qbVector float,
    ctor_dims n = Ok z /\
    Normalized z = Ok (mkVector (replicate (Z.to_nat n) nan) n) /\
    Normalize z = Ok (mkVector (replicate (Z.to_nat n) nan) n).
Proof.
  intros Hn Hpos. unfold ctor_dims.
  replace (n <? 0) with false by (symmetry; apply Z.ltb_ge; lia).
  eexists. split; [reflexivity|].
  assert (Hwf : well_formed
            (mkVector (replicate (Z.to_nat n) (zero : float)) n)).
  { apply well_formed_mk; [|exact Hn]. rewrite length_replicate. lia. }
  rewrite Normalized_ok, Normalize_ok by exact Hwf.
  cbn [m_vectorData m_nDims]. unfold sum_of_squares.
  rewrite foldl_dot_replicate_zero by reflexivity.
  rewrite fmap_replicate. split; reflexivity.
Qed.

Lemma normalising_zeros_gives_nan_witness :
  exists z : qbVector float,
    ctor_dims 3 = Ok z /\
    Normalized z = Ok (mkVector [nan; nan; nan] 3) /\
    Normalize z = Ok (mkVector [nan; nan; nan] 3).
Proof.
  apply (normalising_zeros_gives_nan 3).
  - vm_compute. split; discriminate.
  - lia.
Defined.

Section LongSequences.

Context {T : Type} `{Numeric T}.

(** X17: a vector constructed from a sequence of [2^31] to [2^32 - 1]
    elements stores a negative dimension, the length less [2^32], and every
    loop over the dimension then runs zero times: its norm is [sqrt(0)],
    and scaling it, normalising a copy of it or adding it to itself returns
    the empty vector. *)
Theorem ctor_seq_beyond_int (l : list T) (s : T) :
  2 ^ 31 <= Z.of_nat (length l) < 2 ^ 32 ->
  let v := ctor_seq l in
  GetNumDims v = Z.of_nat (length l) - 2 ^ 32 /\
  data v = l /\
  norm v = Ok (sqrt zero) /\
  op_mul_scalar v s = Ok ctor_default /\
  op_scalar_mul s v = Ok ctor_default /\
  Normalized v = Ok ctor_default /\
  op_add v v = Ok ctor_default.
Proof.
  intros Hl v.
  assert (Hdim : m_nDims v = Z.of_nat (length l) - 2 ^ 32).
  { subst v. unfold ctor_seq, to_int. cbn [m_nDims].
    rewrite <- (Z.mod_add _ (-1) (2 ^ 32)) by lia.
    rewrite Z.mod_small; lia. }
  assert (Hrange : loop_range (m_nDims v) = []).
  { unfold loop_range. rewrite Hdim.
    replace (Z.to_nat (Z.of_nat (length l) - 2 ^ 32)) with 0%nat by lia.
    reflexivity. }
  assert (Hcopy : ctor_seq (m_vectorData v) = v) by reflexivity.
  split; [exact Hdim|]. split; [reflexivity|].
  unfold norm, op_mul_scalar, op_scalar_mul, Normalized, op_add.
  rewrite Hcopy. unfold norm, op_mul_scalar.
  rewrite Z.eqb_refl, Hrange. repeat split.
Qed.

End LongSequences.

Lemma sample_long_length : Z.of_nat (length sample_long) = 2 ^ 31.
Proof. unfold sample_long. rewrite length_replicate. apply Z2Nat.id. lia. Qed.

Lemma ctor_seq_beyond_int_witness :
  GetNumDims (ctor_seq sample_long) = - 2 ^ 31
  /\ op_mul_scalar (ctor_seq sample_long) 2%float = Ok ctor_default.
Proof.
  assert (Hl : 2 ^ 31 <= Z.of_nat (length sample_long) < 2 ^ 32)
    by (rewrite sample_long_length; lia).
  destruct (ctor_seq_beyond_int sample_long 2%float Hl)
    as (Hdim & _ & _ & Hscale & _).
  split; [|exact Hscale].
  rewrite Hdim, sample_long_length. reflexivity.
Defined.

Section EmptyVector.

Context {T : Type} `{Numeric T}.

(** X18: on a well-formed vector of dimension 0 nothing but indexing and
    the cross product fails: the norm is [sqrt(0)], scaling and normalising
    return the empty vector, [Normalize()] leaves the vector as it is, and
    the checked [operator[]] throws for every argument. *)
Theorem empty_vector_behaviour (v : qbVector T) (s : T) (arg : Z) :
  well_formed v -> m_nDims v = 0 ->
  v = ctor_default /\
  norm v = Ok (sqrt zero) /\
  op_mul_scalar v s = Ok ctor_default /\
  Normalized v = Ok ctor_default /\
  Normalize v = Ok v /\
  op_add v v = Ok ctor_default /\
  op_mul_vec v v = Ok ctor_default /\
  op_index_const v arg = Throw (invalid_argument msg_index) /\
  cross v v = Throw (invalid_argument msg_cross_three).
Proof.
  intros Hv Hd.
  assert (Hempty : v = ctor_default).
  { pose proof (well_formed_length v Hv) as Hlen. rewrite Hd in Hlen.
    destruct v as [[|x l] n]; cbn in *; [by subst|discriminate]. }
  split; [exact Hempty|]. subst v.
  split; [reflexivity|]. do 5 (split; [reflexivity|]).
  split; [|reflexivity].
  unfold op_index_const, index_beyond_dims. cbv zeta.
  rewrite index_below_zero_false. cbn [orb m_nDims ctor_default].
  change (to_size_t 0) with 0.
  replace (0 <=? to_size_t arg) with true
    by (symmetry; apply Z.leb_le, to_size_t_nonneg).
  reflexivity.
Qed.

End EmptyVector.

Lemma empty_vector_behaviour_witness :
  norm sample_empty = Ok 0%float
  /\ Normalized sample_empty = Ok sample_empty
  /\ op_index_const sample_empty 0 = Throw (invalid_argument msg_index).
Proof.
  destruct (empty_vector_behaviour sample_empty 2%float 0
              sample_empty_wf eq_refl)
    as (_ & Hnorm & _ & Hcopy & _ & _ & _ & Hidx & _).
  split; [exact Hnorm|]. split; [exact Hcopy|exact Hidx].
Defined.

(** ** Vectors built from sequences beyond the range of [int] *)

Section BeyondInt.

Context {T : Type} `{Numeric T}.

Lemma ctor_seq_wrapped_dims (l : list T) :
  2 ^ 31 <= Z.of_nat (length l) < 2 ^ 32 ->
  m_nDims (ctor_seq l) = Z.of_nat (length l) - 2 ^ 32.
Proof.
  intros Hl. unfold ctor_seq, to_int. cbn [m_nDims].
  rewrite <- (Z.mod_add _ (-1) (2 ^ 32)) by lia.
  rewrite Z.mod_small; lia.
Qed.

Lemma loop_range_nonpos (n : Z) : n <= 0 -> loop_range n = [].
Proof.
  intros Hn. unfold loop_range. by replace (Z.to_nat n) with 0%nat by lia.
Qed.

(** With a negative dimension no loop body runs, and the results are
    built from no element. *)
Lemma negative_dims_operators (l : list T) (s : T) :
  2 ^ 31 <= Z.of_nat (length l) < 2 ^ 32 ->
  op_add (ctor_seq l) (ctor_seq l) = Ok ctor_default /\
  op_sub (ctor_seq l) (ctor_seq l) = Ok ctor_default /\
  op_mul_scalar (ctor_seq l) s = Ok ctor_default /\
  op_scalar_mul s (ctor_seq l) = Ok ctor_default /\
  op_add (ctor_seq l) ctor_default = Throw (invalid_argument msg_add_sub).
Proof.
  intros Hl. pose proof (ctor_seq_wrapped_dims l Hl) as Hdim.
  assert (Hrange : loop_range (m_nDims (ctor_seq l)) = [])
    by (apply loop_range_nonpos; lia).
  unfold op_add, op_sub, op_mul_scalar, op_scalar_mul.
  rewrite Z.eqb_refl, Hrange. do 4 (split; [reflexivity|]).
  rewrite dims_test_ne; [reflexivity|].
  rewrite Hdim. cbn [m_nDims ctor_default]. lia.
Qed.

End BeyondInt.

Lemma sample_long_dims : m_nDims sample_long_vector = - 2 ^ 31.
Proof.
  unfold sample_long_vector.
  rewrite ctor_seq_wrapped_dims by (rewrite sample_long_length; lia).
  rewrite sample_long_length. reflexivity.
Qed.

Lemma sample_long_operators (s : float) :
  op_add sample_long_vector sample_long_vector = Ok ctor_default /\
  op_sub sample_long_vector sample_long_vector = Ok ctor_default /\
  op_mul_scalar sample_long_vector s = Ok ctor_default /\
  op_scalar_mul s sample_long_vector = Ok ctor_default /\
  op_add sample_long_vector ctor_default
  = Throw (invalid_argument msg_add_sub).
Proof.
  assert (Hl : 2 ^ 31 <= Z.of_nat (length sample_long) < 2 ^ 32)
    by (rewrite sample_long_length; lia).
  unfold sample_long_vector.
  exact (negative_dims_operators sample_long s Hl).
Qed.

(** The sum and the difference of a vector of [2^31] elements with itself
    are the empty vector, of dimension 0, not of the dimension [-2^31] of
    the operands. *)
Lemma op_add_long_counterexample :
  GetNumDims sample_long_vector = - 2 ^ 31
  /\ op_add sample_long_vector sample_long_vector = Ok ctor_default
  /\ op_sub sample_long_vector sample_long_vector = Ok ctor_default
  /\ ~ (exists s : qbVector float,
          op_add sample_long_vector sample_long_vector = Ok s /\
          m_nDims s = m_nDims sample_long_vector).
Proof.
  destruct (sample_long_operators 0%float) as (Hadd & Hsub & _).
  split; [exact sample_long_dims|]. do 2 (split; [assumption|]).
  intros (s & Hs & Hd). rewrite Hadd in Hs. injection Hs as <-.
  rewrite sample_long_dims in Hd. discriminate Hd.
Qed.

(** Scaling a vector of [2^31] elements, from either side, returns the
    empty vector, of dimension 0. *)
Lemma scalar_mul_long_counterexample :
  GetNumDims sample_long_vector = - 2 ^ 31
  /\ op_mul_scalar sample_long_vector 2%float = Ok ctor_default
  /\ op_scalar_mul 2%float sample_long_vector = Ok ctor_default
  /\ ~ (exists r : qbVector float,
          op_mul_scalar sample_long_vector 2%float = Ok r /\
          m_nDims r = m_nDims sample_long_vector).
Proof.
  destruct (sample_long_operators 2%float) as (_ & _ & Hr & Hl & _).
  split; [exact sample_long_dims|]. do 2 (split; [assumption|]).
  intros (r & Hs & Hd). rewrite Hr in Hs. injection Hs as <-.
  rewrite sample_long_dims in Hd. discriminate Hd.
Qed.

(** For a vector [v] of [2^31] elements [v - v] is the empty vector, while
    [v * (-1.0)] is the empty vector and adding it to [v] throws. *)
Lemma sub_long_counterexample :
  op_sub sample_long_vector sample_long_vector = Ok ctor_default
  /\ op_mul_scalar sample_long_vector (neg one) = Ok ctor_default
  /\ op_add sample_long_vector ctor_default
     = Throw (invalid_argument msg_add_sub)
  /\ ~ (exists nb r : qbVector float,
          op_mul_scalar sample_long_vector (neg one) = Ok nb /\
          op_add sample_long_vector nb = Ok r /\
          op_sub sample_long_vector sample_long_vector = Ok r).
Proof.
  destruct (sample_long_operators (neg one)) as (_ & Hsub & Hscale & _ & Hadd).
  do 3 (split; [assumption|]).
  intros (nb & r & Hnb & Hr & _). rewrite Hscale in Hnb.
  injection Hnb as <-. rewrite Hadd in Hr. discriminate Hr.
Qed.

(** The in-place loop of [Normalize] when the dimension is smaller than
    the storage: the elements past the dimension are left as they are. *)
Lemma update_loop_prefix {T : Type} `{Numeric T} (f : T -> T)
    (mid rest : list T) :
  forall pre : list T,
    for_loop
      (fun i d => x ← vec_at d i; vec_at_assign d i (f x))
      (seq (length pre) (length mid)) (pre ++ mid ++ rest)
    = Ok (pre ++ (f <$> mid) ++ rest).
Proof.
  induction mid as [|x mid IH]; intros pre; [reflexivity|].
  cbn [length seq for_loop fmap list_fmap app].
  assert (Hx : (pre ++ x :: mid ++ rest) !! length pre = Some x)
    by (by apply list_lookup_middle).
  rewrite (vec_at_lookup _ _ _ Hx), outcome_bind_Ok. unfold vec_at_assign.
  rewrite bool_decide_eq_true_2 by (rewrite length_app; cbn; lia).
  rewrite outcome_bind_Ok.
  replace (<[length pre:=f x]> (pre ++ x :: mid ++ rest))
    with ((pre ++ [f x]) ++ mid ++ rest)
    by (rewrite insert_app_r_alt, Nat.sub_diag by done;
        by rewrite <- app_assoc).
  replace (Datatypes.S (length pre)) with (length (pre ++ [f x]))
    by (rewrite length_app; cbn; lia).
  rewrite IH, <- app_assoc. reflexivity.
Qed.

(** A sequence of [2^32 + 3] elements: the stored dimension wraps to 3.
    [Normalized()] returns the 3 rescaled elements; [Normalize()] rescales
    the first 3 elements in place and keeps the others. *)
Lemma wrapped_normalise (rest : list float) :
  Z.of_nat (length rest) = 2 ^ 32 ->
  let v := ctor_seq ([3; 4; 0]%float ++ rest) in
  m_nDims v = 3 /\
  norm v = Ok 5%float /\
  exists x0 x1 x2 : float,
    Normalized v = Ok (mkVector [x0; x1; x2] 3) /\
    Normalize v = Ok (mkVector ([x0; x1; x2] ++ rest) 3).
Proof.
  intros Hrest v.
  assert (Hd : m_nDims v = 3).
  { subst v. unfold ctor_seq. cbn [m_nDims app length].
    rewrite !Nat2Z.inj_succ, Hrest. reflexivity. }
  split; [exact Hd|].
  assert (Hnorm : norm v = Ok 5%float).
  { unfold norm. rewrite Hd. reflexivity. }
  split; [exact Hnorm|].
  exists (3 * (1 / 5))%float, (4 * (1 / 5))%float, (0 * (1 / 5))%float.
  split.
  - unfold Normalized. rewrite Hnorm.
    change (ctor_seq (m_vectorData v)) with v.
    cbn [mbind outcome_bind]. unfold op_mul_scalar. rewrite Hd. reflexivity.
  - unfold Normalize. rewrite Hnorm, Hd. cbn [mbind outcome_bind].
    pose proof (update_loop_prefix (fun x => mul x (div one 5%float))
                  [3; 4; 0]%float rest []) as Hloop.
    cbn [length app fmap list_fmap] in Hloop.
    change (loop_range 3) with (seq 0 3).
    change (m_vectorData v) with ([3; 4; 0]%float ++ rest).
    cbn [app]. rewrite Hloop. reflexivity.
Qed.

Lemma sample_wrapped_rest_length :
  Z.of_nat (length (replicate (Z.to_nat (2 ^ 32)) 0%float)) = 2 ^ 32.
Proof. rewrite length_replicate. apply Z2Nat.id. lia. Qed.

(** On a vector of [2^32 + 3] elements with norm [5.0] the in-place and
    the copying normalisation differ: the copy holds 3 elements, the object
    normalised in place still holds [2^32 + 3]. *)
Lemma Normalize_wrapped_counterexample :
  norm sample_wrapped_vector = Ok 5%float
  /\ exists r1 r2 : qbVector float,
       Normalized sample_wrapped_vector = Ok r1 /\
       Normalize sample_wrapped_vector = Ok r2 /\
       Z.of_nat (length (m_vectorData r1)) = 3 /\
       Z.of_nat (length (m_vectorData r2)) = 2 ^ 32 + 3 /\
       r1 <> r2.
Proof.
  destruct (wrapped_normalise _ sample_wrapped_rest_length)
    as (_ & Hnorm & x0 & x1 & x2 & Hcopy & Hplace).
  split; [exact Hnorm|]. eexists _, _.
  split; [exact Hcopy|]. split; [exact Hplace|].
  assert (Hlen : Z.of_nat
            (length ([x0; x1; x2] ++ replicate (Z.to_nat (2 ^ 32)) 0%float))
          = 2 ^ 32 + 3).
  { rewrite length_app, Nat2Z.inj_add, sample_wrapped_rest_length.
    reflexivity. }
  split; [reflexivity|]. split; [exact Hlen|].
  intros Heq. apply (f_equal (fun r => Z.of_nat (length (m_vectorData r))))
    in Heq.
  cbn beta in Heq. cbn [m_vectorData] in Heq. rewrite Hlen in Heq.
  discriminate Heq.
Qed.
